(** * Saved-queries export / import: a shallow embedding

  The development follows the two scripts of the repository:

  - [export_queries.py]: [extract_console_configuration_json] and
    [format_queries];
  - [import_queries.py]: [parse_plain_text],
    [extract_console_configuration_json_block] and the splice of [main].

  Python strings are sequences of Unicode code points; they are modelled
  as lists of [N].  The [json] and [re] modules are library code: the
  regular expressions of the scripts are kept as syntax trees and run by
  a backtracking matcher, and the JSON codec is a parameter of the
  import pipeline. *)

From Stdlib Require Import String Ascii.
From Stdlib Require Import List NArith ZArith Bool Arith Lia.
From Stdlib Require PrimFloat.
Import ListNotations.

Set Implicit Arguments.
Set Warnings "-register-all".

(* ================================================================== *)
(** ** Python strings *)
(* ================================================================== *)

Module PyStr.

Definition char := N.
Definition str := list char.

(** A literal of the source, as code points. *)
Definition lit (s : string) : str :=
  List.map N_of_ascii (list_ascii_of_string s).

Definition LF : char := 10%N.
Definition CR : char := 13%N.

Definition in_range (lo hi c : char) : bool :=
  (N.leb lo c && N.leb c hi)%bool.

(** [str.isspace] on one code point: the table behind [str.strip()]
    and the regular expression class [\s]. *)
Definition isspace (c : char) : bool :=
  in_range 0x09%N 0x0D%N c || in_range 0x1C%N 0x20%N c
  || N.eqb c 0x85%N || N.eqb c 0xA0%N || N.eqb c 0x1680%N
  || in_range 0x2000%N 0x200A%N c
  || N.eqb c 0x2028%N || N.eqb c 0x2029%N || N.eqb c 0x202F%N
  || N.eqb c 0x205F%N || N.eqb c 0x3000%N.

(** The line boundaries of [str.splitlines]. *)
Definition is_linebreak (c : char) : bool :=
  in_range 0x0A%N 0x0D%N c || in_range 0x1C%N 0x1E%N c
  || N.eqb c 0x85%N || N.eqb c 0x2028%N || N.eqb c 0x2029%N.

Fixpoint eqb (a b : str) : bool :=
  match a, b with
  | [], [] => true
  | x :: a', y :: b' => N.eqb x y && eqb a' b'
  | _, _ => false
  end.

Fixpoint dropwhile (p : char -> bool) (s : str) : str :=
  match s with
  | [] => []
  | c :: s' => if p c then dropwhile p s' else s
  end.

Fixpoint takewhile (p : char -> bool) (s : str) : str :=
  match s with
  | [] => []
  | c :: s' => if p c then c :: takewhile p s' else []
  end.

Definition lstrip (s : str) : str := dropwhile isspace s.
Definition rstrip (s : str) : str := rev (dropwhile isspace (rev s)).
Definition strip (s : str) : str := lstrip (rstrip s).

(** [s.startswith(p)] *)
Fixpoint startswith (p s : str) : bool :=
  match p, s with
  | [], _ => true
  | x :: p', y :: s' => N.eqb x y && startswith p' s'
  | _ :: _, [] => false
  end.

(** [sep.join(l)] *)
Fixpoint join (sep : str) (l : list str) : str :=
  match l with
  | [] => []
  | [x] => x
  | x :: l' => x ++ sep ++ join sep l'
  end.

(** [s * n] for a one-character string [s] *)
Definition times (c : char) (n : nat) : str := repeat c n.

(** [str.splitlines()]: [cur] is the line being read, [after_cr] tells
    that the previous character was a carriage return, so that a line
    feed coming next belongs to the same boundary.  A last line is
    produced only when it is not empty. *)
Fixpoint splitlines_from (cur : str) (after_cr : bool) (s : str) : list str :=
  match s with
  | [] => match cur with [] => [] | _ => [cur] end
  | c :: s' =>
      if after_cr && N.eqb c LF then splitlines_from cur false s'
      else if is_linebreak c then cur :: splitlines_from [] (N.eqb c CR) s'
      else splitlines_from (cur ++ [c]) false s'
  end.

Definition splitlines (s : str) : list str := splitlines_from [] false s.

(** [not line.strip()] *)
Definition is_blank (line : str) : bool :=
  match strip line with [] => true | _ => false end.

End PyStr.

Import PyStr.

(* ================================================================== *)
(** ** Results of a run *)
(* ================================================================== *)

(** The ways the two scripts stop without a value: the three calls of
  [sys.exit] that the modelled functions reach, and the exceptions that
  an unguarded subscript would raise. *)
Inductive failure :=
| ExpectedDashSeparator (line_no : nat)
  (* "Error: Expected a '-' separator after Query Name at line {i+1}." *)
| BlockNotFound
  (* "ERROR: Could not find console-configuration.json block ..." *)
| JsonError
  (* "Error parsing JSON from YAML block: {e}" *)
| TypeError
| IndexError.

(** A call returns or fails.  [Fuel] is the bounded loop of the model
  running out of steps; it is shown never to happen. *)
Inductive result (A : Type) : Type :=
| Ok (a : A)
| Fail (f : failure)
| Fuel.

Arguments Fail {A} f.
Arguments Fuel {A}.

Definition bind {A B} (r : result A) (f : A -> result B) : result B :=
match r with
| Ok a => f a
| Fail e => Fail e
| Fuel => Fuel
end.

Declare Scope result_scope.
Delimit Scope result_scope with result.
Notation "x <- r ;; k" := (bind r (fun x => k))
(at level 61, r at next level, right associativity) : result_scope.
Notation "' p <- r ;; k" := (bind r (fun x => let 'p := x in k))
(at level 61, p pattern, r at next level, right associativity) : result_scope.

(* ================================================================== *)
(** ** The fragment of [re] used by the scripts *)
(* ================================================================== *)

Module Re.

(** Patterns.  A character class is its membership test. *)
Inductive regex :=
| Chr (p : char -> bool)
| Bol                       (* [^] under [re.MULTILINE] *)
| Eps
| Seq (r1 r2 : regex)
| Star (r : regex).         (* greedy [r*] *)

Definition Plus (r : regex) : regex := Seq r (Star r).

Definition Cat (l : list regex) : regex := fold_right Seq Eps l.

Definition Lit (s : str) : regex := Cat (List.map (fun c => Chr (N.eqb c)) s).

(** [[ \t]], [\s] and [.] *)
Definition sp_tab (c : char) : bool := N.eqb c 32 || N.eqb c 9.
Definition dot (c : char) : bool := negb (N.eqb c LF).

(** [^] matches at the start of the text and just after a line feed. *)
Definition at_bol (t : str) (i : nat) : bool :=
  match i with
  | O => true
  | S i' => match nth_error t i' with Some c => N.eqb c LF | None => false end
  end.

(** The iterations of a greedy star from position [i]: one more turn of
    the body first, the continuation when that fails.  A turn that does
    not advance is refused, and [n] bounds the number of turns. *)
Fixpoint star_iter {A} (body : nat -> (nat -> option A) -> option A)
         (k : nat -> option A) (n i : nat) : option A :=
  match n with
  | O => k i
  | S n' =>
      match body i (fun j => if i <? j then star_iter body k n' j else None) with
      | Some x => Some x
      | None => k i
      end
  end.

(** The backtracking matcher: [exec r t i k] matches [r] in [t] from
    position [i] and hands the end position to [k]; when [k] refuses,
    the next alternative is tried. *)
Fixpoint exec {A} (r : regex) (t : str) (i : nat) (k : nat -> option A)
  : option A :=
  match r with
  | Chr p =>
      match nth_error t i with
      | Some c => if p c then k (S i) else None
      | None => None
      end
  | Bol => if at_bol t i then k i else None
  | Eps => k i
  | Seq r1 r2 => exec r1 t i (fun j => exec r2 t j k)
  | Star r1 =>
      star_iter (fun i' k' => exec r1 t i' k') k (S (length t - i)) i
  end.

(** The first success of [try] at a position of [from, from + n). *)
Fixpoint first_from {A} (try : nat -> option A) (n from : nat) : option A :=
  match n with
  | O => None
  | S n' =>
      match try from with
      | Some x => Some x
      | None => first_from try n' (S from)
      end
  end.

(** [pattern.search(t)] for a pattern made of two consecutive groups
    [r1] and [r2]: the leftmost match; its value is the start of the
    match, the seam between the groups and the end of the match. *)
Definition search2 (r1 r2 : regex) (t : str) : option (nat * nat * nat) :=
  first_from
    (fun i => exec r1 t i (fun j1 => exec r2 t j1 (fun j2 => Some (i, j1, j2))))
    (S (length t)) 0.

(** [re.match(r, t)]: a match at position 0 only; its value is the end. *)
Definition match_ (r : regex) (t : str) : option nat :=
  exec r t 0 (fun j => Some j).

(** The span of a match, read declaratively. *)
Inductive matches (t : str) : regex -> nat -> nat -> Prop :=
| M_chr p i c : nth_error t i = Some c -> p c = true -> matches t (Chr p) i (S i)
| M_bol i : at_bol t i = true -> matches t Bol i i
| M_eps i : matches t Eps i i
| M_seq r1 r2 i j k :
    matches t r1 i j -> matches t r2 j k -> matches t (Seq r1 r2) i k
| M_star_nil r i : matches t (Star r) i i
| M_star_cons r i j k :
    matches t r i j -> i < j -> matches t (Star r) j k -> matches t (Star r) i k.

(** [t[a:b]] *)
Definition slice (t : str) (a b : nat) : str := firstn (b - a) (skipn a t).

End Re.

(* ================================================================== *)
(** ** JSON values *)
(* ================================================================== *)

Module Json.

(** What [json.loads] returns.  A [dict] keeps the insertion order of
    its keys, which [json.dumps] follows. *)
Inductive json :=
| JNull
| JBool (b : bool)
| JInt (z : Z)
| JFloat (f : PrimFloat.float)
| JStr (s : str)
| JArr (l : list json)
| JObj (d : list (str * json)).

Definition dict := list (str * json).

(** [d.get(k)] *)
Fixpoint dict_get (d : dict) (k : str) : option json :=
  match d with
  | [] => None
  | (k', v') :: d' => if PyStr.eqb k' k then Some v' else dict_get d' k
  end.

(** [d[k] = v]: the value of an existing key is replaced in place, a
    new key is added at the end. *)
Fixpoint dict_set (d : dict) (k : str) (v : json) : dict :=
  match d with
  | [] => [(k, v)]
  | (k', v') :: d' =>
      if PyStr.eqb k' k then (k', v) :: d' else (k', v') :: dict_set d' k v
  end.

(** [obj[k] = v] on any value: only a [dict] takes a string key. *)
Definition setitem (obj : json) (k : str) (v : json) : result json :=
  match obj with
  | JObj d => Ok (JObj (dict_set d k v))
  | _ => Fail TypeError
  end.

End Json.

(* ================================================================== *)
(** ** import_queries.py: the flat-text parser *)
(* ================================================================== *)

Module ImportQueries.

(** The dictionaries built by the parser, with their fixed keys. *)
Record query := mk_query { name : str; value : str }.

Record category := mk_category {
  title : str;
  description : str;
  queries : list query
}.

(** A query under construction: its ["value"] is still a list of lines. *)
Record open_query := mk_open { oq_name : str; oq_value : list str }.

Inductive pstate :=
| init | category_header | in_category | in_query_header | in_query_value.

Definition pstate_eqb (a b : pstate) : bool :=
  match a, b with
  | init, init | category_header, category_header
  | in_category, in_category | in_query_header, in_query_header
  | in_query_value, in_query_value => true
  | _, _ => false
  end.

(** The local variables of [parse_plain_text]. *)
Record vars := mk_vars {
  saved_queries : list category;
  current_category : option category;
  current_query : option open_query;
  state : pstate
}.

Definition initial : vars := mk_vars [] None None init.

(** [is_separator_line(line, char)] *)
Definition is_separator_line (line : str) (c : char) : bool :=
  match strip line with
  | [] => false
  | stripped => forallb (fun x => N.eqb x c) stripped
  end.

(** ["\n".join(current_query["value"]).rstrip()] and the dictionary
    that [append] receives. *)
Definition finalize (q : open_query) : query :=
  mk_query (oq_name q) (rstrip (join [LF] (oq_value q))).

(** [current_category["queries"].append(q)] *)
Definition append_query (c : category) (q : query) : category :=
  mk_category (title c) (description c) (queries c ++ [q]).

(** [while i < len(lines) and not lines[i].strip(): i += 1], on the
    cursor [i] and the lines from [i] on. *)
Fixpoint skip_blank (i : nat) (rest : list str) : nat * list str :=
  match rest with
  | l :: rest' => if is_blank l then skip_blank (S i) rest' else (i, rest)
  | [] => (i, rest)
  end.

(** What one turn of the [while] loop leaves behind. *)
Inductive outcome :=
| Next (v : vars) (i : nat) (rest : list str)
| Stop (r : result (list category)).

Definition Category_ := lit "Category:".
Definition Description_ := lit "Description:".
Definition Query_Name_ := lit "Query Name:".
Definition eq_sign : char := 61%N.
Definition dash : char := 45%N.

(** The [Category:] branch, lines 67 to 92. *)
Definition category_branch (v : vars) (i : nat) (line : str) (rest : list str)
  : outcome :=
  let '(saved, cq) :=
    match current_category v with
    | Some c =>
        match current_query v with
        | Some q => (saved_queries v ++ [append_query c (finalize q)], None)
        | None => (saved_queries v ++ [c], None)
        end
    | None => (saved_queries v, current_query v)
    end in
  let cat_title := strip (skipn (length Category_) line) in
  let '(i1, rest1) := skip_blank (S i) rest in
  let '(desc, i2, rest2) :=
    match rest1 with
    | l :: r =>
        if startswith Description_ l
        then (strip (skipn (length Description_) l), S i1, r)
        else ([], i1, rest1)
    | [] => ([], i1, rest1)
    end in
  let cat := mk_category cat_title desc [] in
  let '(i3, rest3) := skip_blank i2 rest2 in
  match rest3 with
  | l :: r =>
      if is_separator_line l eq_sign
      then Next (mk_vars saved (Some cat) cq in_category) (S i3) r
      else Next (mk_vars saved (Some cat) cq category_header) i3 rest3
  | [] => Next (mk_vars saved (Some cat) cq category_header) i3 rest3
  end.

(** The [Query Name:] branch, lines 94 to 113. *)
Definition query_branch (v : vars) (i : nat) (line : str) (rest : list str)
  : outcome :=
  let closed :=
    match current_query v with
    | Some q =>
        match current_category v with
        | Some c => Ok (Some (append_query c (finalize q)))
        | None => Fail TypeError
        end
    | None => Ok (current_category v)
    end in
  match closed with
  | Ok cc =>
      let qname := strip (skipn (length Query_Name_) line) in
      let q := mk_open qname [] in
      let '(i1, rest1) := skip_blank (S i) rest in
      match rest1 with
      | l :: r =>
          if is_separator_line l dash
          then Next (mk_vars (saved_queries v) cc (Some q) in_query_value)
                    (S i1) r
          else Stop (Fail (ExpectedDashSeparator (i1 + 1)))
      | [] => Stop (Fail (ExpectedDashSeparator (i1 + 1)))
      end
  | Fail e => Stop (Fail e)
  | Fuel => Stop Fuel
  end.

(** The [in_query_value] branch, lines 115 to 129. *)
Definition value_branch (v : vars) (i : nat) (line : str) (rest : list str)
  : outcome :=
  if is_separator_line line eq_sign then
    match current_query v with
    | Some q =>
        match current_category v with
        | Some c =>
            Next (mk_vars (saved_queries v)
                          (Some (append_query c (finalize q))) None
                          in_category) (S i) rest
        | None => Stop (Fail TypeError)
        end
    | None => Stop (Fail TypeError)
    end
  else
    match current_query v with
    | Some q =>
        Next (mk_vars (saved_queries v) (current_category v)
                      (Some (mk_open (oq_name q) (oq_value q ++ [line])))
                      in_query_value) (S i) rest
    | None => Stop (Fail TypeError)
    end.

(** The code after the loop, lines 134 to 140. *)
Definition at_end (v : vars) : result (list category) :=
  match current_query v with
  | Some q =>
      match current_category v with
      | Some c => Ok (saved_queries v ++ [append_query c (finalize q)])
      | None => Fail TypeError
      end
  | None =>
      match current_category v with
      | Some c => Ok (saved_queries v ++ [c])
      | None => Ok (saved_queries v)
      end
  end.

(** The body of the [while] loop on [line = lines[i]]. *)
Definition loop_body (v : vars) (i : nat) (line : str) (rest : list str)
  : outcome :=
  if is_blank line then Next v (S i) rest
  else if startswith Category_ line then category_branch v i line rest
  else if pstate_eqb (state v) in_category && startswith Query_Name_ line
       then query_branch v i line rest
  else if pstate_eqb (state v) in_query_value then value_branch v i line rest
  else Next v (S i) rest.

(** One turn: the loop test and the body, or the code after the loop. *)
Definition turn (v : vars) (i : nat) (rest : list str) : outcome :=
  match rest with
  | [] => Stop (at_end v)
  | line :: rest' => loop_body v i line rest'
  end.

Fixpoint while_loop (fuel : nat) (v : vars) (i : nat) (rest : list str)
  : result (list category) :=
  match fuel with
  | O => Fuel
  | S fuel' =>
      match turn v i rest with
      | Stop r => r
      | Next v' i' rest' => while_loop fuel' v' i' rest'
      end
  end.

(** [parse_plain_text(text)["savedQueries"]] *)
Definition parse_lines (lines : list str) : result (list category) :=
  while_loop (S (length lines)) initial 0 lines.

Definition parse_plain_text (text : str) : result (list category) :=
  parse_lines (splitlines text).

(** The loop from any point of a run, with the steps it can need. *)
Definition run (v : vars) (i : nat) (rest : list str) : result (list category) :=
  while_loop (S (length rest)) v i rest.

(** The variables, the cursor and the lines left after [n] turns. *)
Fixpoint turns (n : nat) (v : vars) (i : nat) (rest : list str) : outcome :=
  match n with
  | O => Next v i rest
  | S n' =>
      match turn v i rest with
      | Next v' i' rest' => turns n' v' i' rest'
      | Stop r => Stop r
      end
  end.

(** The loop test is evaluated with variables [v] and cursor [i], the
    lines from [i] on being [rest], in the run on [lines]. *)
Definition reaches (lines : list str) (v : vars) (i : nat) (rest : list str)
  : Prop :=
  exists n, turns n initial 0 lines = Next v i rest.

(** No accumulated line of the open query is blank. *)
Definition lines_not_blank (v : vars) : Prop :=
  forall q, current_query v = Some q ->
            Forall (fun l => is_blank l = false) (oq_value q).

(** The two ways [parse_plain_text] is written to end. *)
Definition expected (r : result (list category)) : Prop :=
  (exists cats, r = Ok cats) \/ (exists n, r = Fail (ExpectedDashSeparator n)).

(** What the loop keeps true of its variables. *)
Definition inv (v : vars) : Prop :=
  (state v = in_query_value -> current_query v <> None)
  /\ (current_query v <> None -> current_category v <> None)
  /\ (state v = in_category -> current_category v <> None).

(** *** The block locator *)

Import Re.

Definition label := lit "console-configuration.json:".
Definition pipe : char := 124%N.

(** [(^[ \t]*console-configuration\.json:\s*\|\s*\n)], group 1 *)
Definition key_line : regex :=
  Cat [Bol; Star (Chr sp_tab); Lit label; Star (Chr isspace);
       Chr (N.eqb pipe); Star (Chr isspace); Chr (N.eqb LF)].

(** [((?:[ \t]+.*\n)+)], group 2 *)
Definition indented_block : regex :=
  Plus (Cat [Plus (Chr sp_tab); Star (Chr dot); Chr (N.eqb LF)]).

(** [^([ \t]+)] *)
Definition leading_indent : regex := Cat [Bol; Plus (Chr sp_tab)].

(** [line[len(indent):] if line.startswith(indent) else line] *)
Definition remove_indent (indent line : str) : str :=
  if startswith indent line then skipn (length indent) line else line.

Definition extract_console_configuration_json_block (yaml_text : str)
  : result (nat * nat * str * str) :=
  match search2 key_line indented_block yaml_text with
  | None => Fail BlockNotFound
  | Some (_, start_index, end_index) =>
      let block_text := slice yaml_text start_index end_index in
      match splitlines block_text with
      | [] => Fail IndexError
      | first_line :: _ =>
          let indent :=
            match match_ leading_indent first_line with
            | Some j => slice first_line 0 j
            | None => []
            end in
          let json_lines :=
            List.map (remove_indent indent) (splitlines block_text) in
          Ok (start_index, end_index, indent, join [LF] json_lines)
      end
  end.

(** *** The import pipeline of [main] *)

Import Json.

Definition json_of_query (q : query) : json :=
  JObj [(lit "name", JStr (name q)); (lit "value", JStr (value q))].

Definition json_of_category (c : category) : json :=
  JObj [(lit "title", JStr (title c));
        (lit "description", JStr (description c));
        (lit "queries", JArr (List.map json_of_query (queries c)))].

Definition savedQueries_ := lit "savedQueries".

(** ["\n".join(indent + line for line in new_json_lines) + "\n"] *)
Definition reindent (indent : str) (new_json_text : str) : str :=
  join [LF] (List.map (fun line => indent ++ line) (splitlines new_json_text))
  ++ [LF].

(** [yaml_text[:start_idx] + indented_new_json + yaml_text[end_idx:]] *)
Definition splice (yaml_text : str) (start_idx end_idx : nat) (new : str) : str :=
  firstn start_idx yaml_text ++ new ++ skipn end_idx yaml_text.

(** [original_config["savedQueries"] = new_config.get("savedQueries", [])]
    on a dictionary *)
Definition updated_config (d : dict) (new_config : list category) : dict :=
  dict_set d savedQueries_ (JArr (List.map json_of_category new_config)).

Section Main.

(** [json.loads], [None] when it raises, and
    [json.dumps(obj, indent=2)]. *)
Variable json_loads : str -> option json.
Variable json_dumps : json -> str.

Local Open Scope result_scope.

(** [main], from the two texts read to the text written. *)
Definition main (plain_text yaml_text : str) : result str :=
  new_config <- parse_plain_text plain_text ;;
  '(start_idx, end_idx, indent, existing_json_text) <-
     extract_console_configuration_json_block yaml_text ;;
  original_config <-
    match json_loads existing_json_text with
    | Some j => Ok j
    | None => Fail JsonError
    end ;;
  original_config <-
    setitem original_config savedQueries_
            (JArr (List.map json_of_category new_config)) ;;
  let new_json_text := json_dumps original_config in
  let indented_new_json := reindent indent new_json_text in
  Ok (splice yaml_text start_idx end_idx indented_new_json).

End Main.

End ImportQueries.

(* ================================================================== *)
(** ** export_queries.py: the flat-text renderer *)
(* ================================================================== *)

Module ExportQueries.

(** The parsed JSON as [format_queries] reads it: every key is read
    with [.get] and may be absent. *)
Record query := mk_query { name : option str; value : option str }.

Record category := mk_category {
  title : option str;
  description : option str;
  queries : option (list query)
}.

Record data := mk_data { savedQueries : option (list category) }.

(** [d.get(key, default)] *)
Definition get {A} (field : option A) (default : A) : A :=
  match field with Some x => x | None => default end.

Definition format_query (q : query) : list str :=
  let qname := get (name q) (lit "No Query Name") in
  let qvalue := get (value q) [] in
  [ lit "Query Name: " ++ qname;
    times 45%N 40;
    rstrip qvalue;
    times 61%N 40;
    [] ].

Definition format_category (c : category) : list str :=
  let cat_title := get (title c) (lit "No Category Title") in
  let cat_desc := get (description c) [] in
  [lit "Category: " ++ cat_title]
  ++ (match cat_desc with [] => [] | _ => [lit "Description: " ++ cat_desc] end)
  ++ [times 61%N 40]
  ++ flat_map format_query (get (queries c) [])
  ++ [[LF]].

Definition format_queries (d : data) : str :=
  join [LF] (flat_map format_category (get (savedQueries d) [])).

(** *** The block locator of the export script *)

Import Re.

(** [^[ \t]*console-configuration\.json:\s*\|\s*\n] *)
Definition key_line : regex := ImportQueries.key_line.

(** [((?:[ \t]+.*\n)+)], group 1 *)
Definition indented_block : regex := ImportQueries.indented_block.

Definition extract_console_configuration_json (yaml_text : str) : result str :=
  match search2 key_line indented_block yaml_text with
  | None => Fail BlockNotFound
  | Some (_, block_start, block_end) =>
      let block := slice yaml_text block_start block_end in
      let indent :=
        match match_ ImportQueries.leading_indent block with
        | Some j => slice block 0 j
        | None => []
        end in
      let lines := splitlines block in
      let stripped_lines := List.map (ImportQueries.remove_indent indent) lines in
      Ok (join [LF] stripped_lines)
  end.

End ExportQueries.


(* ================================================================== *)
(** ** Rendering and parsing back *)
(* ================================================================== *)

Module RoundTrip.

Import ImportQueries.

(** A category list as the object that [format_queries] reads, with
    every key present. *)
Definition export_query (q : query) : ExportQueries.query :=
  ExportQueries.mk_query (Some (name q)) (Some (value q)).

Definition export_category (c : category) : ExportQueries.category :=
  ExportQueries.mk_category (Some (title c)) (Some (description c))
                            (Some (List.map export_query (queries c))).

Definition export_data (cats : list category) : ExportQueries.data :=
  ExportQueries.mk_data (Some (List.map export_category cats)).

(** The category list with the text of every item right-stripped. *)
Definition trim_query (q : query) : query :=
  mk_query (name q) (rstrip (value q)).

Definition trim_category (c : category) : category :=
  mk_category (title c) (description c) (List.map trim_query (queries c)).

(** The round trip as the specification states it. *)
Definition round_trips (cats : list category) : Prop :=
  parse_plain_text (ExportQueries.format_queries (export_data cats))
  = Ok (List.map trim_category cats).

(** Titles, descriptions and names that survive: on one line, with no
    white space around. *)
Definition single_line (s : str) : bool :=
  forallb (fun c => negb (is_linebreak c)) s.

Definition header_ok (s : str) : bool :=
  single_line s && PyStr.eqb (strip s) s.

(** Lines of text that the parser accumulates as they are. *)
Definition text_line_ok (l : str) : bool :=
  negb (is_blank l) && negb (is_separator_line l eq_sign)
  && negb (startswith Category_ l).

(** Item texts that survive, once right-stripped: their line boundaries
    are single line feeds, and each line is accumulated as it is. *)
Definition value_ok (v : str) : bool :=
  let t := rstrip v in
  PyStr.eqb (join [LF] (splitlines t)) t && forallb text_line_ok (splitlines t).

Definition query_ok (q : query) : bool :=
  header_ok (name q) && value_ok (value q).

Definition category_ok (c : category) : bool :=
  header_ok (title c) && header_ok (description c)
  && forallb query_ok (queries c).

(** The text of lines each ended by a line feed. *)
Definition unlines (L : list str) : str :=
  concat (List.map (fun l => l ++ [LF]) L).

(** The lines of the rendering. *)
Definition value_lines (v : str) : list str :=
  match rstrip v with
  | [] => [[]]
  | t => splitlines t
  end.

Definition query_lines (q : query) : list str :=
  [lit "Query Name: " ++ name q; times dash 40]
  ++ value_lines (value q) ++ [times eq_sign 40; []].

Definition header_lines (c : category) : list str :=
  [lit "Category: " ++ title c]
  ++ match description c with
     | [] => []
     | d => [lit "Description: " ++ d]
     end
  ++ [times eq_sign 40].

Definition category_lines (c : category) : list str :=
  header_lines c ++ flat_map query_lines (queries c).

Fixpoint rendered_lines (cats : list category) : list str :=
  match cats with
  | [] => []
  | c :: cs =>
      category_lines c
      ++ match cs with [] => [[]] | _ => [[]; []] end
      ++ rendered_lines cs
  end.

(** What closing the current category adds to the result. *)
Definition closed (prev : option category) : list category :=
  match prev with
  | Some c => [c]
  | None => []
  end.

End RoundTrip.

(* ================================================================== *)
(** ** Sample inputs *)
(* ================================================================== *)

Module Samples.

Import ImportQueries.

Definition cat_A : category := mk_category (lit "A") [] [].

(** A query whose text has an empty line in the middle. *)
Definition text_blank_inside : str := lit "Category: A
====
Query Name: q
----
SELECT 1

FROM t
====
".

(** The variables in the run on [text_blank_inside] when the empty line
    is read. *)
Definition vars_select : vars :=
  mk_vars [] (Some cat_A) (Some (mk_open (lit "q") [lit "SELECT 1"]))
          in_query_value.

(** The variables [v] after [current_query["value"].append(line)]. *)
Definition accumulated (v : vars) (line : str) : vars :=
  mk_vars (saved_queries v) (current_category v)
          (match current_query v with
           | Some q => Some (mk_open (oq_name q) (oq_value q ++ [line]))
           | None => None
           end)
          (state v).

(** A category whose [=] separator is missing. *)
Definition text_no_eq_separator : str := lit "Category: A
Query Name: q
----
SELECT 1
====
".

(** A [Query Name:] line before any category. *)
Definition text_query_first : str := lit "Query Name: q
SELECT 1
".

(** A [Query Name:] line inside the text of a query. *)
Definition text_query_in_value : str := lit "Category: A
====
Query Name: q
----
Query Name: r
SELECT 1
====
".

(** A [Query Name:] line of a category followed by an empty line and by
    the text at once. *)
Definition text_no_dash_separator : str := lit "Category: A
====
Query Name: q

SELECT 1
".

(** A text that ends inside the text of a query. *)
Definition text_unterminated : str := lit "Category: A
====
Query Name: q
----
SELECT 1
".

(** A text with no category. *)
Definition text_no_category : str := lit "Query Name: q
----
SELECT 1
====
".

(** The samples write ['] for the quotation mark. *)
Definition dq (s : str) : str :=
  List.map (fun c => if N.eqb c 39 then 34%N else c) s.

(** A document whose block has an empty line in the middle. *)
Definition doc_blank_line : str := dq (lit "kind: ConfigMap
data:
  console-configuration.json: |
    {
      'readOnly': true,

      'savedQueries': []
    }
---
kind: Service
").

(** A document that ends inside the block, with no line feed after the
    last line. *)
Definition doc_no_final_newline : str := dq (lit "data:
  console-configuration.json: |
    {
      'savedQueries': []
    }").

(** A document with a block and an unrelated field in it. *)
Definition doc_read_only : str := dq (lit "kind: ConfigMap
data:
  console-configuration.json: |
    {
      'readOnly': true,
      'savedQueries': []
    }
---
kind: Service
").

(** Two categories with one query each. *)
Definition text_two_categories : str := lit "Category: A
========================================
Query Name: q
----------------------------------------
SELECT 1
========================================

Category: B
========================================
Query Name: r
----------------------------------------
SELECT 2
========================================
".

Definition two_categories : list category :=
  [ mk_category (lit "A") [] [mk_query (lit "q") (lit "SELECT 1")];
    mk_category (lit "B") [] [mk_query (lit "r") (lit "SELECT 2")] ].

Definition config_read_only : Json.dict :=
  [ (lit "readOnly", Json.JBool true); (lit "savedQueries", Json.JArr []) ].

(** The values of [json.loads] and of [json.dumps(..., indent=2)] that
    the import of [text_two_categories] into [doc_read_only] uses. *)
Definition sample_loads (t : str) : option Json.json :=
  if PyStr.eqb t (dq (lit "{
  'readOnly': true,
  'savedQueries': []
}"))
  then Some (Json.JObj config_read_only)
  else None.

Definition sample_dumps (j : Json.json) : str :=
  match j with
  | Json.JObj [(_, Json.JBool true); (_, Json.JArr [_; _])] => dq (lit "{
  'readOnly': true,
  'savedQueries': [
    {
      'title': 'A',
      'description': '',
      'queries': [
        {
          'name': 'q',
          'value': 'SELECT 1'
        }
      ]
    },
    {
      'title': 'B',
      'description': '',
      'queries': [
        {
          'name': 'r',
          'value': 'SELECT 2'
        }
      ]
    }
  ]
}")
  | _ => lit "null"
  end.

(** A category list that the round trip gives back. *)
Definition categories_plain : list category :=
  [ mk_category (lit "Basic") (lit "Simple counts")
      [ mk_query (lit "Count") (lit "SELECT count(*)
  FROM trades;
");
        mk_query (lit "Empty") [] ];
    mk_category (lit "Other") [] [mk_query (lit "One") (lit "SELECT 1")] ].

(** Category lists that it does not give back: an empty line inside the
    text of an item, a title with a space in front, a line of [=] inside
    a text, such a line with a space in front, a line of a text that
    begins with [Category:], and a text whose lines are separated by a
    carriage return and a line feed. *)
Definition categories_blank_inside : list category :=
  [ mk_category (lit "A") []
      [mk_query (lit "q") (lit "SELECT 1

FROM t")] ].

Definition categories_space_in_title : list category :=
  [ mk_category (lit " A") [] [] ].

Definition categories_eq_line : list category :=
  [ mk_category (lit "A") []
      [mk_query (lit "q") (lit "SELECT 1
====
FROM t")] ].

Definition categories_padded_eq_line : list category :=
  [ mk_category (lit "A") []
      [mk_query (lit "q") (lit "SELECT 1
 ====
FROM t")] ].

Definition categories_category_line : list category :=
  [ mk_category (lit "A") []
      [mk_query (lit "q") (lit "SELECT 1
Category: B")] ].

Definition categories_crlf : list category :=
  [ mk_category (lit "A") []
      [mk_query (lit "q") (lit "SELECT 1" ++ [CR; LF] ++ lit "FROM t")] ].

(** An object with absent keys: a category with neither title nor
    description, an item with no name and an item with no text; and a
    category with no list of items. *)
Definition data_absent_keys : ExportQueries.data :=
  ExportQueries.mk_data
    (Some [ ExportQueries.mk_category None None
              (Some [ ExportQueries.mk_query None (Some (lit "SELECT 1"));
                      ExportQueries.mk_query (Some (lit "q")) None ]);
            ExportQueries.mk_category (Some (lit "B")) (Some (lit "d")) None ]).

(** A document with no block. *)
Definition doc_no_block : str := lit "kind: ConfigMap
data:
  other: 2
".

End Samples.

(* ================================================================== *)
(** ** Notions used by the laws of the parser and of the renderer *)
(* ================================================================== *)

Module Laws.

Import ImportQueries.

(** The states in which the parser waits for a category. *)
Definition outside_category (st : pstate) : bool :=
  match st with
  | init | category_header => true
  | _ => false
  end.

(** The lines of a text that are not blank. *)
Definition without_blank_lines (lines : list str) : list str :=
  filter (fun l => negb (is_blank l)) lines.

(** Two results that differ at most by the line number of the exit. *)
Definition same_outcome (r1 r2 : result (list category)) : Prop :=
  match r1, r2 with
  | Ok a, Ok b => a = b
  | Fail (ExpectedDashSeparator _), Fail (ExpectedDashSeparator _) => True
  | Fail f, Fail g => f = g
  | Fuel, Fuel => True
  | _, _ => False
  end.

(** Two turns that agree on the variables, the second one on the text
    without its blank lines. *)
Definition same_turn (o1 o2 : outcome) : Prop :=
  match o1, o2 with
  | Next v _ rest, Next v' _ rest' =>
      v = v' /\ rest' = without_blank_lines rest
  | Stop r1, Stop r2 => same_outcome r1 r2
  | _, _ => False
  end.

(** The titles announced by the [Category:] lines of a text, in order:
    [line[len("Category:"):].strip()] for each of them. *)
Definition category_titles (lines : list str) : list str :=
  List.map (fun l => strip (skipn (length Category_) l))
           (filter (startswith Category_) lines).

(** The categories that the variables hold: the closed ones, then the
    current one. *)
Definition held (v : vars) : list category :=
  saved_queries v ++ RoundTrip.closed (current_category v).

(** What the [Category:] branch does to the result list and to the open
    query before it opens the new category (lines 69 to 75). *)
Definition closing (v : vars) : list category * option open_query :=
  match current_category v with
  | Some c =>
      match current_query v with
      | Some q => (saved_queries v ++ [append_query c (finalize q)], None)
      | None => (saved_queries v ++ [c], None)
      end
  | None => (saved_queries v, current_query v)
  end.

(** Categories in the form that the parser returns: what
    [RoundTrip.category_ok] asks, and item texts that are right-stripped
    already. *)
Definition stripped_values (c : category) : bool :=
  forallb (fun q => PyStr.eqb (rstrip (value q)) (value q)) (queries c).

Definition normal (c : category) : bool :=
  RoundTrip.category_ok c && stripped_values c.

(** An open query whose name and accumulated lines will close into such
    an item. *)
Definition open_ok (q : open_query) : bool :=
  RoundTrip.header_ok (oq_name q)
  && forallb (fun l => RoundTrip.text_line_ok l && RoundTrip.single_line l)
             (oq_value q).

Definition vars_normal (v : vars) : Prop :=
  Forall (fun c => normal c = true) (saved_queries v)
  /\ (forall c, current_category v = Some c -> normal c = true)
  /\ (forall q, current_query v = Some q -> open_ok q = true).

(** The object that [format_queries] reads, every absent key replaced by
    the default of its [.get]. *)
Definition fill_query (q : ExportQueries.query) : query :=
  mk_query (ExportQueries.get (ExportQueries.name q) (lit "No Query Name"))
           (ExportQueries.get (ExportQueries.value q) []).

Definition fill_category (c : ExportQueries.category) : category :=
  mk_category
    (ExportQueries.get (ExportQueries.title c) (lit "No Category Title"))
    (ExportQueries.get (ExportQueries.description c) [])
    (List.map fill_query (ExportQueries.get (ExportQueries.queries c) [])).

Definition fill_data (d : ExportQueries.data) : list category :=
  List.map fill_category (ExportQueries.get (ExportQueries.savedQueries d) []).

(** [p in t] for strings: [p] starts at some position of [t]. *)
Definition occurs (p t : str) : bool :=
  existsb (fun i => startswith p (skipn i t)) (seq 0 (S (length t))).

(** What the export script keeps of the result of the import script's
    locator: the JSON text. *)
Definition json_text_of (r : result (nat * nat * str * str)) : result str :=
  match r with
  | Ok (_, _, _, json_text) => Ok json_text
  | Fail f => Fail f
  | Fuel => Fuel
  end.

(** The names announced by the [Query Name:] lines of a text, in order:
    [line[len("Query Name:"):].strip()] for each of them. *)
Definition query_names (lines : list str) : list str :=
  List.map (fun l => strip (skipn (length Query_Name_) l))
           (filter (startswith Query_Name_) lines).

(** The names of the items of a category list, and those that the
    variables hold, the open query included. *)
Definition names_of (cats : list category) : list str :=
  flat_map (fun c => List.map name (queries c)) cats.

Definition open_name (q : option open_query) : list str :=
  match q with
  | Some q => [oq_name q]
  | None => []
  end.

Definition names_held (v : vars) : list str :=
  names_of (held v) ++ open_name (current_query v).

End Laws.

(* ================================================================== *)
(** * Properties *)
(* ================================================================== *)

(** ** Strings *)

Module PyStrFacts.

#[global] Arguments isspace : simpl never.
#[global] Arguments is_linebreak : simpl never.

Lemma dropwhile_app (p : char -> bool) (a b : str) :
  dropwhile p (a ++ b) =
  match dropwhile p a with
  | [] => dropwhile p b
  | x => x ++ b
  end.
Proof.
  induction a as [|c a IH]; simpl.
  - reflexivity.
  - destruct (p c); [exact IH|reflexivity].
Qed.

Lemma rstrip_cons (c : char) (l : str) :
  rstrip (c :: l) =
  match rstrip l with
  | [] => if isspace c then [] else [c]
  | _ => c :: rstrip l
  end.
Proof.
  unfold rstrip. simpl rev. rewrite dropwhile_app.
  destruct (dropwhile isspace (rev l)) as [|x d] eqn:E; simpl.
  - destruct (isspace c); reflexivity.
  - rewrite rev_app_distr. simpl.
    destruct (rev d ++ [x]) eqn:E'; [|reflexivity].
    now destruct (rev d).
Qed.

Lemma rstrip_cons_nonspace (c : char) (l : str) :
  isspace c = false -> rstrip (c :: l) = c :: rstrip l.
Proof.
  intros H. rewrite rstrip_cons, H. now destruct (rstrip l).
Qed.

Lemma strip_cons_nonspace (c : char) (l : str) :
  isspace c = false -> strip (c :: l) = c :: rstrip l.
Proof.
  intros H. unfold strip, lstrip. rewrite rstrip_cons_nonspace by assumption.
  simpl. now rewrite H.
Qed.

Lemma strip_cons_space (c : char) (l : str) :
  isspace c = true -> strip (c :: l) = strip l.
Proof.
  intros H. unfold strip, lstrip. rewrite rstrip_cons, H.
  destruct (rstrip l); simpl; [reflexivity|now rewrite H].
Qed.

Lemma is_blank_cons_nonspace (c : char) (l : str) :
  isspace c = false -> is_blank (c :: l) = false.
Proof. intros H. unfold is_blank. now rewrite strip_cons_nonspace. Qed.

Lemma startswith_app (p s : str) : startswith p (p ++ s) = true.
Proof.
  induction p as [|c p IH]; simpl; [reflexivity|].
  now rewrite N.eqb_refl, IH.
Qed.

Lemma skipn_length_app (p s : str) : skipn (length p) (p ++ s) = s.
Proof. induction p; simpl; auto. Qed.

Lemma startswith_head (c : char) (p s : str) :
  startswith (c :: p) s = true -> exists s', s = c :: s'.
Proof.
  destruct s as [|x s]; simpl; [discriminate|].
  intros H. apply andb_prop in H. destruct H as [H _].
  apply N.eqb_eq in H. subst. eauto.
Qed.

Lemma eqb_eq (a : str) : forall b, PyStr.eqb a b = true <-> a = b.
Proof.
  induction a as [|x a IH]; intros [|y b]; simpl; split; intros H;
    try reflexivity; try discriminate.
  - apply andb_prop in H. destruct H as [H1 H2].
    apply N.eqb_eq in H1. apply IH in H2. now subst.
  - inversion H; subst. rewrite N.eqb_refl. now apply IH.
Qed.

Lemma eqb_neq (a b : str) : PyStr.eqb a b = false <-> a <> b.
Proof.
  destruct (PyStr.eqb a b) eqn:E; split; intros H; try discriminate;
    try reflexivity.
  - apply eqb_eq in E. contradiction.
  - intros ->. assert (PyStr.eqb b b = true) by now apply eqb_eq. congruence.
Qed.

(** *** [splitlines] *)

Lemma splitlines_from_line (l : str) :
  forall cur rest,
    Forall (fun c => is_linebreak c = false) l ->
    splitlines_from cur false (l ++ LF :: rest)
    = (cur ++ l) :: splitlines_from [] false rest.
Proof.
  induction l as [|c l IH]; intros cur rest H; simpl.
  - now rewrite app_nil_r.
  - inversion H as [|? ? Hc Hl]; subst. rewrite Hc, IH by assumption.
    now rewrite <- app_assoc.
Qed.

(** The text of lines each ended by a line feed. *)
Lemma splitlines_unlines (L : list str) :
  Forall (Forall (fun c => is_linebreak c = false)) L ->
  splitlines (concat (List.map (fun l => l ++ [LF]) L)) = L.
Proof.
  unfold splitlines. induction L as [|l L IH]; intros H; simpl.
  - reflexivity.
  - inversion H as [|? ? Hl HL]; subst.
    rewrite <- app_assoc. simpl.
    rewrite splitlines_from_line by assumption. simpl. now rewrite IH.
Qed.

Lemma join_unlines (L : list str) :
  L <> [] -> join [LF] L ++ [LF] = concat (List.map (fun l => l ++ [LF]) L).
Proof.
  induction L as [|l L IH]; intros H; [now elim H|].
  destruct L as [|l' L].
  - simpl. now rewrite app_nil_r.
  - change (join [LF] (l :: l' :: L)) with (l ++ [LF] ++ join [LF] (l' :: L)).
    change (concat (List.map (fun l => l ++ [LF]) (l :: l' :: L)))
      with ((l ++ [LF]) ++ concat (List.map (fun l => l ++ [LF]) (l' :: L))).
    rewrite <- IH by discriminate. now rewrite <- !app_assoc.
Qed.

Lemma splitlines_from_nobreak (s : str) :
  forall cur b,
    Forall (fun c => is_linebreak c = false) cur ->
    Forall (Forall (fun c => is_linebreak c = false)) (splitlines_from cur b s).
Proof.
  induction s as [|c s IH]; intros cur b H; simpl.
  - destruct cur; [constructor|]. constructor; [assumption|constructor].
  - destruct (b && N.eqb c LF); [now apply IH|].
    destruct (is_linebreak c) eqn:E.
    + constructor; [assumption|]. apply IH. constructor.
    + apply IH. apply Forall_app. split; [assumption|]. now repeat constructor.
Qed.

Lemma splitlines_nobreak (s : str) :
  Forall (Forall (fun c => is_linebreak c = false)) (splitlines s).
Proof. apply splitlines_from_nobreak. constructor. Qed.

Lemma splitlines_from_nonempty (s : str) :
  forall cur b, cur <> [] -> splitlines_from cur b s <> [].
Proof.
  induction s as [|c s IH]; intros cur b H; simpl.
  - destruct cur; [now elim H|discriminate].
  - destruct (b && N.eqb c LF); [now apply IH|].
    destruct (is_linebreak c); [discriminate|].
    apply IH. now destruct cur.
Qed.

Lemma splitlines_nonempty (s : str) : s <> [] -> splitlines s <> [].
Proof.
  destruct s as [|c s]; intros H; [now elim H|].
  unfold splitlines. simpl. destruct (is_linebreak c); [discriminate|].
  apply splitlines_from_nonempty. discriminate.
Qed.

End PyStrFacts.

(** ** The matcher *)

Module ReFacts.

Import Re.

Lemma star_iter_sound {A} (t : str) (r : regex)
      (body : nat -> (nat -> option A) -> option A) (k : nat -> option A) :
  (forall i k' x, body i k' = Some x ->
                  exists j, matches t r i j /\ k' j = Some x) ->
  forall n i x,
    star_iter body k n i = Some x ->
    exists j, matches t (Star r) i j /\ k j = Some x.
Proof.
  intros Hbody. induction n as [|n IH]; simpl; intros i x H.
  - exists i. split; [constructor|assumption].
  - destruct (body i (fun j => if i <? j then star_iter body k n j else None))
      as [y|] eqn:E.
    + inversion H; subst y. apply Hbody in E. destruct E as (j & Hm & Hk).
      destruct (i <? j) eqn:Hlt; [|discriminate].
      apply Nat.ltb_lt in Hlt. apply IH in Hk. destruct Hk as (j' & Hm' & Hk).
      exists j'. split; [|assumption]. eapply M_star_cons; eauto.
    + exists i. split; [constructor|assumption].
Qed.

(** Whatever the matcher returns comes from its continuation, called at
    the end of a span of the pattern. *)
Lemma exec_sound {A} (t : str) (r : regex) :
  forall i (k : nat -> option A) x,
    exec r t i k = Some x -> exists j, matches t r i j /\ k j = Some x.
Proof.
  induction r as [p| | |r1 IH1 r2 IH2|r IH]; intros i k x H;
    [simpl in H..|].
  - destruct (nth_error t i) as [c|] eqn:E; [|discriminate].
    destruct (p c) eqn:Hp; [|discriminate].
    exists (S i). split; [econstructor; eauto|assumption].
  - destruct (at_bol t i) eqn:E; [|discriminate].
    exists i. split; [now constructor|assumption].
  - exists i. split; [constructor|assumption].
  - apply IH1 in H. destruct H as (j & Hm & H).
    apply IH2 in H. destruct H as (j' & Hm' & H).
    exists j'. split; [econstructor; eauto|assumption].
  - change (star_iter (fun i' k' => exec r t i' k') k (S (length t - i)) i
            = Some x) in H.
    eapply star_iter_sound; [|exact H]. intros; now apply IH.
Qed.

Lemma matches_bounds (t : str) (r : regex) (i j : nat) :
  matches t r i j -> i <= j /\ (i <= length t -> j <= length t).
Proof.
  induction 1 as [p i c Hn Hp|i Hb|i|r1 r2 i j k _ [IH1 IH1'] _ [IH2 IH2']
                  |r i|r i j k _ [IH1 IH1'] Hlt _ [IH2 IH2']].
  - split; [lia|]. intros _.
    assert (i < length t) by (apply nth_error_Some; congruence). lia.
  - split; lia.
  - split; lia.
  - split; [lia|auto].
  - split; lia.
  - split; [lia|auto].
Qed.

Lemma first_from_sound {A} (try : nat -> option A) (n : nat) :
  forall from x,
    first_from try n from = Some x ->
    exists i, from <= i < from + n /\ try i = Some x.
Proof.
  induction n as [|n IH]; simpl; intros from x H; [discriminate|].
  destruct (try from) as [y|] eqn:E.
  - inversion H; subst. exists from. split; [lia|assumption].
  - apply IH in H. destruct H as (i & Hi & H). exists i. split; [lia|assumption].
Qed.

(** The spans of a match of [search2]. *)
Lemma search2_sound (r1 r2 : regex) (t : str) (i j1 j2 : nat) :
  search2 r1 r2 t = Some (i, j1, j2) ->
  matches t r1 i j1 /\ matches t r2 j1 j2 /\ i <= j1 <= j2 /\ j2 <= length t.
Proof.
  unfold search2. intros H. apply first_from_sound in H.
  destruct H as (i0 & Hi0 & H).
  apply exec_sound in H. destruct H as (a & Ha & H).
  apply exec_sound in H. destruct H as (b & Hb & H).
  inversion H; subst.
  destruct (matches_bounds Ha) as [B1 B1'].
  destruct (matches_bounds Hb) as [B2 B2'].
  repeat split; try assumption. apply B2', B1'. lia.
Qed.

Lemma skipn_nth_error_cons {A} (t : list A) :
  forall i c, nth_error t i = Some c -> skipn i t = c :: skipn (S i) t.
Proof.
  induction t as [|a t IH]; intros [|i] c H; simpl in H; try discriminate.
  - now inversion H.
  - change (skipn i t = c :: skipn (S i) t). now apply IH.
Qed.

(** A greedy star of one class with nothing after it takes the longest
    run of the class. *)
Lemma star_class_greedy (p : char -> bool) (t : str) (n : nat) :
  forall i,
    length t - i < n ->
    star_iter (fun i' k' => exec (Chr p) t i' k') (fun j => Some j) n i
    = Some (i + length (takewhile p (skipn i t))).
Proof.
  induction n as [|n IH]; intros i Hn; [lia|]. simpl.
  destruct (nth_error t i) as [c|] eqn:E.
  - assert (Hi : i < length t) by (apply nth_error_Some; congruence).
    pose proof (skipn_nth_error_cons t i E) as Hs.
    rewrite Hs. simpl. destruct (p c).
    + replace (i <? S i) with true by (symmetry; apply Nat.ltb_lt; lia).
      rewrite IH by lia. f_equal. simpl. lia.
    + simpl. f_equal. lia.
  - assert (Hi : length t <= i) by (apply nth_error_None; assumption).
    rewrite skipn_all2 by assumption. simpl. f_equal. lia.
Qed.

Lemma exec_plus_class (p : char -> bool) (t : str) (i : nat) :
  exec (Plus (Chr p)) t i (fun j => Some j)
  = match nth_error t i with
    | Some c =>
        if p c then Some (S i + length (takewhile p (skipn (S i) t))) else None
    | None => None
    end.
Proof.
  change (exec (Plus (Chr p)) t i (fun j => Some j))
    with (match nth_error t i with
          | Some c =>
              if p c
              then star_iter (fun i' k' => exec (Chr p) t i' k')
                             (fun j => Some j) (S (length t - S i)) (S i)
              else None
          | None => None
          end).
  destruct (nth_error t i) as [c|]; [|reflexivity].
  destruct (p c); [|reflexivity]. apply star_class_greedy. lia.
Qed.

Lemma firstn_takewhile (p : char -> bool) (l : str) :
  firstn (length (takewhile p l)) l = takewhile p l.
Proof.
  induction l as [|c l IH]; simpl; [reflexivity|].
  destruct (p c); simpl; [now rewrite IH|reflexivity].
Qed.

Lemma takewhile_Forall (p : char -> bool) (l : str) :
  Forall (fun c => p c = true) (takewhile p l).
Proof.
  induction l as [|c l IH]; simpl; [constructor|].
  destruct (p c) eqn:E; constructor; assumption.
Qed.

End ReFacts.

(** ** The parser loop *)

Module ParserFacts.

Import ImportQueries.

Lemma skip_blank_length (rest : list str) :
  forall i, length (snd (skip_blank i rest)) <= length rest.
Proof.
  induction rest as [|l rest IH]; intros i; simpl.
  - lia.
  - destruct (is_blank l); simpl.
    + specialize (IH (S i)). lia.
    + lia.
Qed.

Lemma skip_blank_blanks (blanks rest : list str) :
  forall i, Forall (fun l => is_blank l = true) blanks ->
            skip_blank i (blanks ++ rest) = skip_blank (i + length blanks) rest.
Proof.
  induction blanks as [|b blanks IH]; intros i Hb; simpl.
  - now rewrite Nat.add_0_r.
  - inversion Hb as [|? ? Hb1 Hb2]; subst. rewrite Hb1, IH by assumption.
    f_equal. lia.
Qed.

Lemma skip_blank_stop (l : str) (rest : list str) (i : nat) :
  is_blank l = false -> skip_blank i (l :: rest) = (i, l :: rest).
Proof. intros H; simpl; now rewrite H. Qed.

Lemma category_branch_next v i line rest :
  exists v' i' rest',
    category_branch v i line rest = Next v' i' rest'
    /\ length rest' <= length rest
    /\ current_category v' <> None
    /\ (current_query v' = None \/
        (current_category v = None /\ current_query v' = current_query v))
    /\ state v' <> in_query_value.
Proof.
  unfold category_branch.
  destruct (match current_category v with
            | Some c => _ | None => _ end) as [saved cq] eqn:Hc.
  assert (Hcq : cq = None \/ (current_category v = None /\ cq = current_query v)).
  { destruct (current_category v); [destruct (current_query v)|];
      inversion Hc; subst; auto. }
  pose proof (skip_blank_length rest (S i)) as H1.
  destruct (skip_blank (S i) rest) as [i1 rest1]; simpl in H1.
  destruct (match rest1 with
            | [] => _ | l :: r => _ end) as [[desc i2] rest2] eqn:Hd.
  assert (H2 : length rest2 <= length rest1).
  { destruct rest1 as [|l r]; [|destruct (startswith Description_ l)];
      inversion Hd; subst; simpl; lia. }
  pose proof (skip_blank_length rest2 i2) as H3.
  destruct (skip_blank i2 rest2) as [i3 rest3]; simpl in H3.
  destruct rest3 as [|l r]; [|destruct (is_separator_line l eq_sign)];
    do 3 eexists; (split; [reflexivity|]); simpl in *;
    (repeat split; [lia|discriminate|assumption|discriminate]).
Qed.

Lemma turn_shrinks v i rest v' i' rest' :
  turn v i rest = Next v' i' rest' -> length rest' < length rest.
Proof.
  destruct rest as [|line rest]; simpl; [discriminate|].
  unfold loop_body.
  destruct (is_blank line).
  { intros H; inversion H; subst; lia. }
  destruct (startswith Category_ line).
  { destruct (category_branch_next v i line rest)
      as (v1 & i1 & r1 & -> & Hl & _).
    intros H; inversion H; subst; lia. }
  destruct (pstate_eqb (state v) in_category && startswith Query_Name_ line).
  { unfold query_branch.
    pose proof (skip_blank_length rest (S i)) as H1.
    destruct (skip_blank (S i) rest) as [i1 rest1]; simpl in H1.
    destruct (current_query v); [destruct (current_category v)|];
      try discriminate;
      (destruct rest1 as [|l r]; [discriminate|];
       destruct (is_separator_line l dash); [|discriminate];
       intros H; inversion H; subst; simpl in H1; lia). }
  destruct (pstate_eqb (state v) in_query_value).
  { unfold value_branch.
    destruct (is_separator_line line eq_sign);
      (destruct (current_query v); [|discriminate]);
      try (destruct (current_category v); [|discriminate]);
      intros H; inversion H; subst; lia. }
  intros H; inversion H; subst; lia.
Qed.

Lemma while_loop_fuel (f : nat) :
  forall f' v i rest,
    length rest < f -> length rest < f' ->
    while_loop f v i rest = while_loop f' v i rest.
Proof.
  induction f as [|f IH]; intros f' v i rest Hf Hf'; [lia|].
  destruct f' as [|f']; [lia|]. simpl.
  destruct (turn v i rest) as [v1 i1 r1|r] eqn:Ht; [|reflexivity].
  apply turn_shrinks in Ht. apply IH; lia.
Qed.

(** The loop unfolds one turn at a time. *)
Lemma run_turn v i rest :
  run v i rest =
  match turn v i rest with
  | Stop r => r
  | Next v' i' rest' => run v' i' rest'
  end.
Proof.
  unfold run at 1. simpl.
  destruct (turn v i rest) as [v1 i1 r1|r] eqn:Ht; [|reflexivity].
  apply turn_shrinks in Ht. unfold run. apply while_loop_fuel; lia.
Qed.

Lemma run_nil v i : run v i [] = at_end v.
Proof. reflexivity. Qed.

Lemma turns_S n v i rest :
  turns (S n) v i rest =
  match turn v i rest with
  | Next v' i' rest' => turns n v' i' rest'
  | Stop r => Stop r
  end.
Proof. reflexivity. Qed.

Lemma run_turns (n : nat) :
  forall v i rest v' i' rest',
    turns n v i rest = Next v' i' rest' -> run v i rest = run v' i' rest'.
Proof.
  induction n as [|n IH]; simpl; intros v i rest v' i' rest' H.
  - now inversion H.
  - rewrite run_turn. destruct (turn v i rest); [|discriminate]. now apply IH.
Qed.

Lemma reaches_run lines v i rest :
  reaches lines v i rest -> parse_lines lines = run v i rest.
Proof. intros [n Hn]. exact (run_turns n _ _ _ Hn). Qed.

Lemma pstate_eqb_eq (a b : pstate) : pstate_eqb a b = true <-> a = b.
Proof. destruct a, b; simpl; split; intros H; try reflexivity; discriminate. Qed.

(** *** The invariant *)

Lemma inv_initial : inv initial.
Proof. repeat split; simpl; intros H; try discriminate; now elim H. Qed.

Lemma expected_ok cats : expected (Ok cats).
Proof. left; eauto. Qed.

Lemma expected_dash n : expected (Fail (ExpectedDashSeparator n)).
Proof. right; eauto. Qed.

Lemma inv_turn v i rest :
  inv v ->
  match turn v i rest with
  | Next v' _ _ => inv v'
  | Stop r => expected r
  end.
Proof.
  intros (I1 & I2 & I3).
  destruct rest as [|line rest]; simpl.
  { unfold at_end.
    destruct (current_query v) eqn:Hq.
    - destruct (current_category v) eqn:Hc; [apply expected_ok|].
      exfalso. apply I2; [discriminate|reflexivity].
    - destruct (current_category v); apply expected_ok. }
  unfold loop_body.
  destruct (is_blank line); [now repeat split|].
  destruct (startswith Category_ line).
  { destruct (category_branch_next v i line rest)
      as (v1 & i1 & r1 & -> & _ & Hc & Hq & Hs).
    repeat split; intros H; try assumption; now elim Hs. }
  destruct (pstate_eqb (state v) in_category && startswith Query_Name_ line)
    eqn:Hb.
  { apply andb_prop in Hb. destruct Hb as [Hst _].
    apply pstate_eqb_eq in Hst. specialize (I3 Hst).
    unfold query_branch.
    destruct (skip_blank (S i) rest) as [i1 rest1].
    destruct (current_query v) eqn:Hq; destruct (current_category v) eqn:Hc;
      try (now elim I3);
      (destruct rest1 as [|l r]; [apply expected_dash|];
       destruct (is_separator_line l dash); [|apply expected_dash];
       repeat split; simpl; intros; discriminate). }
  destruct (pstate_eqb (state v) in_query_value) eqn:Hv.
  { apply pstate_eqb_eq in Hv. specialize (I1 Hv).
    unfold value_branch.
    destruct (current_query v) eqn:Hq; [|now elim I1].
    assert (Hc : current_category v <> None) by (apply I2; discriminate).
    destruct (current_category v) eqn:Hcc; [|now elim Hc].
    destruct (is_separator_line line eq_sign);
      repeat split; simpl; intros H; try discriminate; now elim H. }
  now repeat split.
Qed.

Lemma inv_turns (n : nat) :
  forall v i rest v' i' rest',
    inv v -> turns n v i rest = Next v' i' rest' -> inv v'.
Proof.
  induction n as [|n IH]; simpl; intros v i rest v' i' rest' Hi H.
  - now inversion H; subst.
  - pose proof (inv_turn i rest Hi) as Ht.
    destruct (turn v i rest); [|discriminate]. eapply IH; eauto.
Qed.

Lemma reaches_inv lines v i rest : reaches lines v i rest -> inv v.
Proof. intros [n Hn]. exact (inv_turns n _ _ inv_initial Hn). Qed.

Lemma inv_run (k : nat) :
  forall v i rest, length rest <= k -> inv v -> expected (run v i rest).
Proof.
  induction k as [|k IH]; intros v i rest Hk Hi; rewrite run_turn;
    pose proof (inv_turn i rest Hi) as Ht;
    destruct (turn v i rest) as [v1 i1 r1|r] eqn:E; try assumption;
    apply turn_shrinks in E.
  - lia.
  - apply IH; [lia|assumption].
Qed.

End ParserFacts.

(** ** The flat-text parser: specification *)

Module ParserSpec.

Import ImportQueries ParserFacts PyStrFacts.

Lemma query_name_line (line : str) :
  startswith Query_Name_ line = true ->
  is_blank line = false /\ startswith Category_ line = false.
Proof.
  intros H. change Query_Name_ with (81%N :: lit "uery Name:") in H.
  destruct (startswith_head _ _ _ H) as [s' ->]. split.
  - now apply is_blank_cons_nonspace.
  - reflexivity.
Qed.

(** C9: in every run of the parser, at each evaluation of the loop test,
    the state [in_query_value] comes with a current query and a current
    category, and a current query comes with a current category; no turn
    of the loop and no finalization subscripts [None]; and the parser
    ends on every text, with a category list or through the exit of the
    missing [-] separator. *)
Theorem parser_invariant_and_totality (text : str) :
  (forall v i rest,
      reaches (splitlines text) v i rest ->
      (state v = in_query_value ->
       exists q c, current_query v = Some q /\ current_category v = Some c)
      /\ (forall q, current_query v = Some q ->
                    exists c, current_category v = Some c)
      /\ turn v i rest <> Stop (Fail TypeError))
  /\ ((exists cats, parse_plain_text text = Ok cats)
      \/ (exists n, parse_plain_text text = Fail (ExpectedDashSeparator n))).
Proof.
  split.
  - intros v i rest Hr. pose proof (reaches_inv Hr) as Hi.
    pose proof (inv_turn i rest Hi) as Ht.
    destruct Hi as (I1 & I2 & I3). repeat split.
    + intros Hs. specialize (I1 Hs).
      destruct (current_query v) as [q|] eqn:Hq; [|now elim I1].
      assert (Hc : current_category v <> None) by (apply I2; discriminate).
      destruct (current_category v) as [c|]; [eauto|now elim Hc].
    + intros q Hq.
      assert (Hc : current_category v <> None)
        by (apply I2; rewrite Hq; discriminate).
      destruct (current_category v) as [c|]; [eauto|now elim Hc].
    + intros E. rewrite E in Ht.
      destruct Ht as [[cats Hc]|[n Hn]]; discriminate.
  - change (expected (run initial 0 (splitlines text))).
    eapply inv_run; [apply Nat.le_refl|exact inv_initial].
Qed.

(** C8: when the loop test fails (end of input) with a query still
    open, the parser returns normally: the lines of the query joined
    with line feeds and right-stripped are its text, the query is the
    last of its category and the category the last of the result; a
    category open with no open query is the last of the result as it
    stands. *)
Theorem open_query_closed_at_end_of_input (text : str) (v : vars) (i : nat) :
  reaches (splitlines text) v i [] ->
  (forall q, current_query v = Some q ->
     exists c, current_category v = Some c
       /\ parse_plain_text text =
          Ok (saved_queries v ++
              [mk_category (title c) (description c)
                 (queries c ++
                  [mk_query (oq_name q) (rstrip (join [LF] (oq_value q)))])]))
  /\ (forall c, current_query v = None -> current_category v = Some c ->
        parse_plain_text text = Ok (saved_queries v ++ [c])).
Proof.
  intros Hr. pose proof (reaches_inv Hr) as (_ & I2 & _).
  unfold parse_plain_text. rewrite (reaches_run Hr), run_nil. unfold at_end.
  split.
  - intros q Hq. rewrite Hq.
    assert (Hc : current_category v <> None)
      by (apply I2; rewrite Hq; discriminate).
    destruct (current_category v) as [c|]; [|now elim Hc].
    exists c. split; reflexivity.
  - intros c Hq Hc. now rewrite Hq, Hc.
Qed.

Lemma run_initial_without_category (rest : list str) :
  forall i,
    Forall (fun l => startswith Category_ l = false) rest ->
    run initial i rest = Ok []
    /\ (forall n v i' rest', turns n initial i rest = Next v i' rest' ->
                             v = initial).
Proof.
  induction rest as [|line rest IH]; intros i H.
  - split; [reflexivity|].
    intros [|n] v i' rest'; simpl; intros E; now inversion E.
  - inversion H as [|? ? H1 H2]; subst.
    assert (Ht : turn initial i (line :: rest) = Next initial (S i) rest).
    { simpl. unfold loop_body. rewrite H1. simpl.
      now destruct (is_blank line). }
    destruct (IH (S i) H2) as [IH1 IH2]. split.
    + now rewrite run_turn, Ht.
    + intros [|n] v i' rest' E.
      * now inversion E.
      * rewrite turns_S, Ht in E. eauto.
Qed.

(** C10: on a text none of whose lines begins with [Category:], the
    parser returns the empty category list, and its variables never
    leave their initial values: no line, in particular no
    [Query Name:] line, starts anything. *)
Theorem no_category_line_no_output (text : str) :
  Forall (fun l => startswith Category_ l = false) (splitlines text) ->
  parse_plain_text text = Ok []
  /\ (forall v i rest, reaches (splitlines text) v i rest -> v = initial).
Proof.
  intros H. destruct (run_initial_without_category 0 H) as [H1 H2]. split.
  - exact H1.
  - intros v i rest [n Hn]. eauto.
Qed.

(** C4, as the code has it: a blank line is skipped in every state of
    the parser, [in_query_value] included; the turn changes the cursor
    and nothing else, so the line is not accumulated. *)
Theorem blank_line_skipped_in_every_state
        (v : vars) (i : nat) (line : str) (rest : list str) :
  is_blank line = true ->
  turn v i (line :: rest) = Next v (S i) rest.
Proof. intros H. simpl. unfold loop_body. now rewrite H. Qed.

Lemma lines_not_blank_turn v i rest v' i' rest' :
  lines_not_blank v -> turn v i rest = Next v' i' rest' -> lines_not_blank v'.
Proof.
  intros Hv. destruct rest as [|line rest]; simpl; [discriminate|].
  unfold loop_body. destruct (is_blank line) eqn:Hb.
  { intros H; inversion H; now subst. }
  destruct (startswith Category_ line).
  { destruct (category_branch_next v i line rest)
      as (v1 & i1 & r1 & -> & _ & _ & Hq & _).
    intros H; inversion H; subst. intros q Eq.
    destruct Hq as [Hq|[_ Hq]]; [congruence|]. apply Hv. congruence. }
  destruct (pstate_eqb (state v) in_category && startswith Query_Name_ line).
  { unfold query_branch. destruct (skip_blank (S i) rest) as [i1 rest1].
    destruct (current_query v); [destruct (current_category v)|];
      try discriminate;
      (destruct rest1 as [|l r]; [discriminate|];
       destruct (is_separator_line l dash); [|discriminate];
       intros H; inversion H; subst; intros q Eq; simpl in Eq;
       inversion Eq; subst; constructor). }
  destruct (pstate_eqb (state v) in_query_value).
  { unfold value_branch.
    destruct (is_separator_line line eq_sign);
      (destruct (current_query v) as [q0|] eqn:E0; [|discriminate]);
      try (destruct (current_category v); [|discriminate]);
      intros H; inversion H; subst; intros q Eq; simpl in Eq;
      try discriminate.
    inversion Eq; subst. simpl. apply Forall_app. split.
    - now apply Hv.
    - now repeat constructor. }
  intros H; inversion H; now subst.
Qed.

(** In every run, no blank line ever enters the text of a query. *)
Lemma accumulated_lines_not_blank (text : str) v i rest :
  reaches (splitlines text) v i rest -> lines_not_blank v.
Proof.
  intros [n Hn]. revert Hn.
  assert (H0 : lines_not_blank initial) by (intros q Hq; discriminate).
  revert H0. generalize initial, 0, (splitlines text). revert v i rest.
  induction n as [|n IH]; intros v i rest v0 i0 rest0 H0 Hn.
  - simpl in Hn. inversion Hn; now subst.
  - rewrite turns_S in Hn.
    destruct (turn v0 i0 rest0) as [v1 i1 rest1|] eqn:E; [|discriminate].
    eapply IH; [|exact Hn]. eapply lines_not_blank_turn; eauto.
Qed.

(** C6, as the code has it: when the loop test is reached in state
    [in_category] on a [Query Name:] line whose next non-blank line is
    not a [-] separator, or that only blank lines follow, the parser
    leaves through the exit of the missing separator, with the number of
    the line where the separator was looked for. *)
Theorem missing_dash_separator_exits
        (text : str) (v : vars) (i : nat) (line : str)
        (blanks tail : list str) :
  reaches (splitlines text) v i (line :: blanks ++ tail) ->
  state v = in_category ->
  startswith Query_Name_ line = true ->
  Forall (fun l => is_blank l = true) blanks ->
  match tail with
  | [] => True
  | l :: _ => is_blank l = false /\ is_separator_line l dash = false
  end ->
  parse_plain_text text =
  Fail (ExpectedDashSeparator (i + 1 + length blanks + 1)).
Proof.
  intros Hr Hs Hq Hb Ht. pose proof (reaches_inv Hr) as (_ & I2 & I3).
  destruct (query_name_line _ Hq) as [Hnb Hnc].
  unfold parse_plain_text. rewrite (reaches_run Hr), run_turn. simpl.
  unfold loop_body. rewrite Hnb, Hnc, Hs, Hq. simpl.
  unfold query_branch. rewrite (skip_blank_blanks _ _ Hb).
  specialize (I3 Hs).
  assert (E : skip_blank (S i + length blanks) tail
              = (S i + length blanks, tail)).
  { destruct tail as [|l r]; [reflexivity|].
    destruct Ht as [Hl _]. now apply skip_blank_stop. }
  rewrite E.
  replace (S i + length blanks + 1) with (i + 1 + length blanks + 1) by lia.
  destruct (current_query v); destruct (current_category v);
    try (now elim I3);
    (destruct tail as [|l r]; [reflexivity|];
     destruct Ht as [_ Hl]; now rewrite Hl).
Qed.

Import Samples.

(** The end of the input inside the text of a query, on a sample. *)
Lemma open_query_closed_at_end_of_input_witness :
  reaches (splitlines text_unterminated) vars_select 5 []
  /\ ((forall q, current_query vars_select = Some q ->
         exists c, current_category vars_select = Some c
           /\ parse_plain_text text_unterminated =
              Ok (saved_queries vars_select ++
                  [mk_category (title c) (description c)
                     (queries c ++
                      [mk_query (oq_name q)
                                (rstrip (join [LF] (oq_value q)))])]))
      /\ (forall c, current_query vars_select = None ->
            current_category vars_select = Some c ->
            parse_plain_text text_unterminated
            = Ok (saved_queries vars_select ++ [c]))).
Proof.
  assert (H : reaches (splitlines text_unterminated) vars_select 5 [])
    by (exists 3; reflexivity).
  split; [exact H|].
  exact (open_query_closed_at_end_of_input text_unterminated H).
Defined.

Lemma no_category_line_no_output_witness :
  Forall (fun l => startswith Category_ l = false)
         (splitlines text_no_category)
  /\ parse_plain_text text_no_category = Ok []
  /\ (forall v i rest,
        reaches (splitlines text_no_category) v i rest -> v = initial).
Proof.
  assert (H : Forall (fun l => startswith Category_ l = false)
                     (splitlines text_no_category))
    by (vm_compute; repeat constructor).
  split; [exact H|].
  exact (no_category_line_no_output text_no_category H).
Defined.

Lemma blank_line_skipped_in_every_state_witness :
  is_blank [] = true
  /\ turn vars_select 5 ([] :: [lit "FROM t"; lit "===="])
     = Next vars_select 6 [lit "FROM t"; lit "===="].
Proof.
  split; [reflexivity|].
  apply (blank_line_skipped_in_every_state vars_select 5 []). reflexivity.
Defined.

(** C4, the claim refuted: in the run on [text_blank_inside] the empty
    line is read in state [in_query_value], and the turn does not
    accumulate it; the text of the query comes out without it. *)
Lemma blank_line_in_query_value_not_accumulated :
  reaches (splitlines text_blank_inside) vars_select 5
          ([] :: [lit "FROM t"; lit "===="])
  /\ state vars_select = in_query_value
  /\ is_blank [] = true
  /\ turn vars_select 5 ([] :: [lit "FROM t"; lit "===="])
     <> Next (accumulated vars_select []) 6 [lit "FROM t"; lit "===="]
  /\ parse_plain_text text_blank_inside
     = Ok [mk_category (lit "A") []
             [mk_query (lit "q") (lit "SELECT 1" ++ [LF] ++ lit "FROM t")]].
Proof.
  repeat split.
  - exists 3. reflexivity.
  - vm_compute. discriminate.
Qed.

(** C5, the code at a category with no [=] separator: no exit is
    taken; the category stays in state [category_header], where its
    queries are not read, and it is returned empty. *)
Theorem missing_category_separator_not_detected :
  parse_plain_text text_no_eq_separator = Ok [mk_category (lit "A") [] []]
  /\ (forall v i line rest,
        exists v' i' rest', category_branch v i line rest = Next v' i' rest').
Proof.
  split; [reflexivity|].
  intros v i line rest.
  destruct (category_branch_next v i line rest) as (v' & i' & rest' & H & _).
  eauto.
Qed.

Lemma missing_dash_separator_exits_witness :
  reaches (splitlines text_no_dash_separator)
          (mk_vars [] (Some cat_A) None in_category) 2
          (lit "Query Name: q" :: [[]] ++ [lit "SELECT 1"])
  /\ parse_plain_text text_no_dash_separator
     = Fail (ExpectedDashSeparator 5).
Proof.
  assert (H : reaches (splitlines text_no_dash_separator)
                (mk_vars [] (Some cat_A) None in_category) 2
                (lit "Query Name: q" :: [[]] ++ [lit "SELECT 1"]))
    by (exists 1; reflexivity).
  split; [exact H|].
  apply (@missing_dash_separator_exits text_no_dash_separator
           (mk_vars [] (Some cat_A) None in_category) 2
           (lit "Query Name: q") [[]] [lit "SELECT 1"] H).
  - reflexivity.
  - reflexivity.
  - repeat constructor.
  - split; reflexivity.
Defined.

(** C6, the claim refuted: a [Query Name:] line followed by a line that
    is no [-] separator, before any category and inside the text of a
    query; the parser returns in both runs. *)
Lemma query_name_line_without_dash_accepted :
  (splitlines text_query_first = [lit "Query Name: q"; lit "SELECT 1"]
   /\ startswith Query_Name_ (lit "Query Name: q") = true
   /\ is_blank (lit "SELECT 1") = false
   /\ is_separator_line (lit "SELECT 1") dash = false
   /\ parse_plain_text text_query_first = Ok [])
  /\ (nth_error (splitlines text_query_in_value) 4 = Some (lit "Query Name: r")
      /\ nth_error (splitlines text_query_in_value) 5 = Some (lit "SELECT 1")
      /\ parse_plain_text text_query_in_value
         = Ok [mk_category (lit "A") []
                 [mk_query (lit "q")
                    (lit "Query Name: r" ++ [LF] ++ lit "SELECT 1")]]).
Proof. repeat split. Qed.

End ParserSpec.

(** ** The block locator and the splice: specification *)

Module ImportSpec.

Import Re Json ImportQueries PyStrFacts ReFacts Samples.

Lemma sp_tab_nobreak (c : char) : sp_tab c = true -> is_linebreak c = false.
Proof.
  unfold sp_tab. intros H. apply orb_prop in H.
  destruct H as [H|H]; apply N.eqb_eq in H; subst; reflexivity.
Qed.

(** [re.match(r'^([ \t]+)', line)] takes the spaces and tabs that start
    the line. *)
Lemma leading_indent_takewhile (line : str) :
  match match_ leading_indent line with
  | Some j => slice line 0 j
  | None => []
  end = takewhile sp_tab line.
Proof.
  change (match_ leading_indent line)
    with (exec (Plus (Chr sp_tab)) line 0 (fun j => Some j)).
  rewrite exec_plus_class. destruct line as [|c line]; [reflexivity|].
  cbn [nth_error takewhile skipn]. destruct (sp_tab c); [|reflexivity].
  unfold slice. cbn [Nat.add Nat.sub skipn firstn length].
  now rewrite firstn_takewhile.
Qed.

(** What the block locator returns, read off its definition. *)
Lemma extract_block_ok (yaml_text : str) (s e : nat) (indent jt : str) :
  extract_console_configuration_json_block yaml_text = Ok (s, e, indent, jt) ->
  exists i first others,
    search2 key_line indented_block yaml_text = Some (i, s, e)
    /\ splitlines (slice yaml_text s e) = first :: others
    /\ indent = takewhile sp_tab first
    /\ jt = join [LF] (List.map (remove_indent indent) (first :: others)).
Proof.
  unfold extract_console_configuration_json_block.
  destruct (search2 key_line indented_block yaml_text) as [[[i s0] e0]|];
    [|discriminate].
  destruct (splitlines (slice yaml_text s0 e0)) as [|first others] eqn:E;
    [discriminate|].
  rewrite leading_indent_takewhile. intros H. inversion H; subst.
  exists i, first, others. repeat split. now rewrite E.
Qed.

Lemma reindent_lines (indent text : str) :
  Forall (fun c => sp_tab c = true) indent ->
  text <> [] ->
  splitlines (reindent indent text)
  = List.map (fun line => indent ++ line) (splitlines text).
Proof.
  intros Hi Ht. unfold reindent.
  pose proof (splitlines_nonempty Ht) as Hne.
  pose proof (splitlines_nobreak text) as Hnb.
  rewrite join_unlines by (destruct (splitlines text); [now elim Hne|discriminate]).
  apply splitlines_unlines.
  apply Forall_map. eapply Forall_impl; [|exact Hnb].
  intros l Hl. apply Forall_app. split; [|assumption].
  eapply Forall_impl; [|exact Hi]. apply sp_tab_nobreak.
Qed.

Lemma main_ok (json_loads : str -> option json) (json_dumps : json -> str)
      (plain yaml : str) (cats : list category)
      (s e : nat) (indent jt : str) (d : dict) :
  parse_plain_text plain = Ok cats ->
  extract_console_configuration_json_block yaml = Ok (s, e, indent, jt) ->
  json_loads jt = Some (JObj d) ->
  main json_loads json_dumps plain yaml
  = Ok (splice yaml s e
          (reindent indent (json_dumps (JObj (updated_config d cats))))).
Proof.
  intros Hp He Hl. unfold main. rewrite Hp. simpl. rewrite He. simpl.
  rewrite Hl. reflexivity.
Qed.

(** C2: when the block is found, its text is a JSON object and the flat
    text parses, the import writes the text before the block span, the
    new block, and the text after the span; the characters before the
    span and after it are those of the original document, at their
    places up to the change of length; the indentation is the run of
    spaces and tabs that starts the first line of the original block, and
    the lines of the new block are the lines of the serialized object,
    each behind that indentation. *)
Theorem import_preserves_document
        (json_loads : str -> option json) (json_dumps : json -> str)
        (plain yaml : str) (cats : list category)
        (s e : nat) (indent jt : str) (d : dict) :
  parse_plain_text plain = Ok cats ->
  extract_console_configuration_json_block yaml = Ok (s, e, indent, jt) ->
  json_loads jt = Some (JObj d) ->
  json_dumps (JObj (updated_config d cats)) <> [] ->
  let new_json_text := json_dumps (JObj (updated_config d cats)) in
  let new_block := reindent indent new_json_text in
  exists out,
    main json_loads json_dumps plain yaml = Ok out
    /\ out = firstn s yaml ++ new_block ++ skipn e yaml
    /\ s <= e <= length yaml
    /\ (forall n, n < s -> nth_error out n = nth_error yaml n)
    /\ (forall n, e <= n ->
          nth_error out (s + length new_block + (n - e)) = nth_error yaml n)
    /\ (exists first others,
          splitlines (slice yaml s e) = first :: others
          /\ indent = takewhile sp_tab first)
    /\ splitlines new_block
       = List.map (fun line => indent ++ line) (splitlines new_json_text).
Proof.
  intros Hp He Hl Hd new_json_text new_block.
  exists (firstn s yaml ++ new_block ++ skipn e yaml).
  destruct (extract_block_ok _ He) as (i & first & others & Hs & Hf & Hi & _).
  destruct (search2_sound _ _ _ Hs) as (_ & _ & [_ Hse] & Hlen).
  assert (Hfl : length (firstn s yaml) = s) by (apply firstn_length_le; lia).
  split; [eapply main_ok; eassumption|].
  split; [reflexivity|]. split; [lia|]. split; [|split; [|split]].
  - intros n Hn. rewrite nth_error_app1 by lia.
    now rewrite nth_error_firstn, (proj2 (Nat.ltb_lt n s) Hn).
  - intros n Hn. rewrite nth_error_app2 by lia.
    rewrite nth_error_app2 by lia. rewrite nth_error_skipn. f_equal. lia.
  - exists first, others. split; assumption.
  - apply reindent_lines; [|assumption]. subst indent. apply takewhile_Forall.
Qed.

Lemma dict_get_set_same (d : dict) (k : str) (v : json) :
  dict_get (dict_set d k v) k = Some v.
Proof.
  induction d as [|[k' v'] d IH]; simpl.
  - now rewrite (proj2 (eqb_eq k k) eq_refl).
  - destruct (PyStr.eqb k' k) eqn:E; simpl; now rewrite E.
Qed.

Lemma dict_get_set_other (d : dict) (k k0 : str) (v : json) :
  k0 <> k -> dict_get (dict_set d k v) k0 = dict_get d k0.
Proof.
  intros Hk. induction d as [|[k' v'] d IH]; simpl.
  - destruct (PyStr.eqb k k0) eqn:E; [|reflexivity].
    apply eqb_eq in E. now elim Hk.
  - destruct (PyStr.eqb k' k) eqn:E; simpl.
    + apply eqb_eq in E. subst k'.
      destruct (PyStr.eqb k k0) eqn:E'; [|reflexivity].
      apply eqb_eq in E'. now elim Hk.
    + now rewrite IH.
Qed.

Lemma dict_set_keys (d : dict) (k : str) (v : json) :
  List.map fst (dict_set d k v)
  = match dict_get d k with
    | Some _ => List.map fst d
    | None => List.map fst d ++ [k]
    end.
Proof.
  induction d as [|[k' v'] d IH]; simpl; [reflexivity|].
  destruct (PyStr.eqb k' k) eqn:E; simpl; [reflexivity|].
  rewrite IH. now destruct (dict_get d k).
Qed.

(** C3: the object that the import serializes into the document has the
    parsed category list under [savedQueries]; every other key has the
    value it had in the original object, and the keys keep their order,
    [savedQueries] coming last when the original had none. *)
Theorem import_replaces_only_saved_queries
        (json_loads : str -> option json) (json_dumps : json -> str)
        (plain yaml : str) (cats : list category)
        (s e : nat) (indent jt : str) (d : dict) :
  parse_plain_text plain = Ok cats ->
  extract_console_configuration_json_block yaml = Ok (s, e, indent, jt) ->
  json_loads jt = Some (JObj d) ->
  exists updated,
    main json_loads json_dumps plain yaml
    = Ok (splice yaml s e (reindent indent (json_dumps (JObj updated))))
    /\ dict_get updated savedQueries_
       = Some (JArr (List.map json_of_category cats))
    /\ (forall k, k <> savedQueries_ -> dict_get updated k = dict_get d k)
    /\ List.map fst updated
       = match dict_get d savedQueries_ with
         | Some _ => List.map fst d
         | None => List.map fst d ++ [savedQueries_]
         end.
Proof.
  intros Hp He Hl. exists (updated_config d cats).
  split; [eapply main_ok; eassumption|].
  unfold updated_config. split; [apply dict_get_set_same|].
  split; [intros k Hk; now apply dict_get_set_other|apply dict_set_keys].
Qed.

Lemma import_preserves_document_witness :
  parse_plain_text text_two_categories = Ok two_categories
  /\ extract_console_configuration_json_block doc_read_only
     = Ok (54, 115, lit "    ",
           dq (lit "{
  'readOnly': true,
  'savedQueries': []
}"))
  /\ exists out,
      main sample_loads sample_dumps text_two_categories doc_read_only = Ok out
      /\ out = firstn 54 doc_read_only
               ++ reindent (lit "    ")
                    (sample_dumps
                       (JObj (updated_config config_read_only two_categories)))
               ++ skipn 115 doc_read_only
      /\ 54 <= 115 <= length doc_read_only.
Proof.
  assert (Hp : parse_plain_text text_two_categories = Ok two_categories)
    by reflexivity.
  assert (He : extract_console_configuration_json_block doc_read_only
               = Ok (54, 115, lit "    ",
                     dq (lit "{
  'readOnly': true,
  'savedQueries': []
}"))) by reflexivity.
  split; [exact Hp|]. split; [exact He|].
  destruct (@import_preserves_document sample_loads sample_dumps
              text_two_categories doc_read_only two_categories
              54 115 (lit "    ") _ config_read_only Hp He)
    as (out & H1 & H2 & H3 & _).
  - reflexivity.
  - vm_compute. discriminate.
  - exists out. repeat split; try assumption; apply H3.
Defined.

Lemma import_replaces_only_saved_queries_witness :
  exists updated,
    main sample_loads sample_dumps text_two_categories doc_read_only
    = Ok (splice doc_read_only 54 115
            (reindent (lit "    ") (sample_dumps (JObj updated))))
    /\ dict_get updated savedQueries_
       = Some (JArr (List.map json_of_category two_categories))
    /\ (forall k, k <> savedQueries_ ->
                  dict_get updated k = dict_get config_read_only k)
    /\ List.map fst updated
       = match dict_get config_read_only savedQueries_ with
         | Some _ => List.map fst config_read_only
         | None => List.map fst config_read_only ++ [savedQueries_]
         end.
Proof.
  apply (@import_replaces_only_saved_queries sample_loads sample_dumps
           text_two_categories doc_read_only two_categories
           54 115 (lit "    ")
           (dq (lit "{
  'readOnly': true,
  'savedQueries': []
}")) config_read_only); reflexivity.
Defined.

(** The field [readOnly] of the sample is still [true] in the object
    that the import serializes. *)
Example read_only_kept :
  dict_get (updated_config config_read_only two_categories) (lit "readOnly")
  = Some (JBool true).
Proof. reflexivity. Qed.

(** C7, the code at a block with an empty line in it: the block ends at
    the empty line, although indented lines follow it; the rest of the
    block stays in the document, after the span.  So does an indented
    last line that no line feed ends. *)
Theorem block_stops_at_empty_line :
  extract_console_configuration_json_block doc_blank_line
  = Ok (54, 84, lit "    ", dq (lit "{
  'readOnly': true,"))
  /\ skipn 84 doc_blank_line = dq (lit "
      'savedQueries': []
    }
---
kind: Service
")
  /\ ExportQueries.extract_console_configuration_json doc_blank_line
     = Ok (dq (lit "{
  'readOnly': true,"))
  /\ extract_console_configuration_json_block doc_no_final_newline
     = Ok (38, 69, lit "    ", dq (lit "{
  'savedQueries': []"))
  /\ skipn 69 doc_no_final_newline = lit "    }".
Proof. repeat split. Qed.

End ImportSpec.

(** ** Rendering and parsing back: the text as lines *)

Module RenderFacts.

Import ImportQueries RoundTrip PyStrFacts.

Lemma unlines_app (A B : list str) : unlines (A ++ B) = unlines A ++ unlines B.
Proof. unfold unlines. now rewrite map_app, concat_app. Qed.

Lemma unlines_cons (l : str) (L : list str) :
  unlines (l :: L) = l ++ LF :: unlines L.
Proof. unfold unlines. simpl. now rewrite <- app_assoc. Qed.

Lemma join_cons (sep x : str) (l : list str) :
  l <> [] -> join sep (x :: l) = x ++ sep ++ join sep l.
Proof. destruct l; [intros H; now elim H|reflexivity]. Qed.

Lemma join_app (sep : str) (A B : list str) :
  A <> [] -> B <> [] -> join sep (A ++ B) = join sep A ++ sep ++ join sep B.
Proof.
  induction A as [|a A IH]; intros HA HB; [now elim HA|].
  destruct A as [|a' A].
  - simpl app. now rewrite join_cons.
  - change ((a :: a' :: A) ++ B) with (a :: ((a' :: A) ++ B)).
    rewrite join_cons by discriminate. rewrite IH by (discriminate || assumption).
    rewrite (@join_cons sep a (a' :: A)) by discriminate.
    now rewrite <- !app_assoc.
Qed.

(** A list of elements that ends with the element ["\n"]. *)
Lemma join_snoc_LF (E : list str) :
  join [LF] (E ++ [[LF]]) = unlines E ++ [LF].
Proof.
  induction E as [|e E IH]; [reflexivity|].
  change ((e :: E) ++ [[LF]]) with (e :: (E ++ [[LF]])).
  rewrite join_cons by (destruct E; discriminate).
  rewrite IH, unlines_cons. now rewrite <- app_assoc.
Qed.

Lemma value_ok_lines (v : str) :
  value_ok v = true ->
  unlines [rstrip v] = unlines (value_lines v)
  /\ Forall (fun l => text_line_ok l = true) (splitlines (rstrip v))
  /\ join [LF] (splitlines (rstrip v)) = rstrip v.
Proof.
  unfold value_ok. intros H. apply andb_prop in H. destruct H as [H1 H2].
  apply eqb_eq in H1. rewrite forallb_forall in H2.
  split; [|split; [apply Forall_forall; exact H2|exact H1]].
  unfold value_lines. destruct (rstrip v) as [|c t] eqn:E; [reflexivity|].
  rewrite <- H1 at 1.
  assert (Hne : splitlines (c :: t) <> [])
    by (apply splitlines_nonempty; discriminate).
  unfold unlines at 1. simpl. rewrite app_nil_r.
  now rewrite join_unlines.
Qed.

Lemma unlines_format_query (q : query) :
  value_ok (value q) = true ->
  unlines (ExportQueries.format_query (export_query q))
  = unlines (query_lines q).
Proof.
  intros H. destruct (value_ok_lines _ H) as [Hv _].
  change (ExportQueries.format_query (export_query q))
    with ([lit "Query Name: " ++ name q; times dash 40]
          ++ [rstrip (value q)] ++ [times eq_sign 40; []]).
  unfold query_lines. rewrite !unlines_app. now rewrite Hv.
Qed.

Lemma query_ok_parts (q : query) :
  query_ok q = true ->
  single_line (name q) = true /\ strip (name q) = name q
  /\ value_ok (value q) = true.
Proof.
  unfold query_ok, header_ok. intros H.
  apply andb_prop in H. destruct H as [H Hv].
  apply andb_prop in H. destruct H as [H1 H2]. apply eqb_eq in H2. auto.
Qed.

Lemma category_ok_parts (c : category) :
  category_ok c = true ->
  (single_line (title c) = true /\ strip (title c) = title c)
  /\ (single_line (description c) = true
      /\ strip (description c) = description c)
  /\ Forall (fun q => query_ok q = true) (queries c).
Proof.
  unfold category_ok, header_ok. intros H.
  apply andb_prop in H. destruct H as [H Hq].
  apply andb_prop in H. destruct H as [Ht Hd].
  apply andb_prop in Ht. destruct Ht as [Ht1 Ht2]. apply eqb_eq in Ht2.
  apply andb_prop in Hd. destruct Hd as [Hd1 Hd2]. apply eqb_eq in Hd2.
  rewrite forallb_forall in Hq. rewrite Forall_forall. auto.
Qed.

Lemma unlines_format_queries (qs : list query) :
  Forall (fun q => query_ok q = true) qs ->
  unlines (flat_map ExportQueries.format_query (List.map export_query qs))
  = unlines (flat_map query_lines qs).
Proof.
  induction 1 as [|q qs Hq _ IH]; [reflexivity|].
  cbn [List.map flat_map]. rewrite !unlines_app, IH.
  f_equal. apply unlines_format_query. now apply query_ok_parts.
Qed.

Lemma format_category_elements (c : category) :
  ExportQueries.format_category (export_category c)
  = (header_lines c
     ++ flat_map ExportQueries.format_query (List.map export_query (queries c)))
    ++ [[LF]].
Proof.
  unfold ExportQueries.format_category, header_lines. destruct c as [t d qs].
  cbn [export_category ExportQueries.title ExportQueries.description
       ExportQueries.queries ExportQueries.get title description queries].
  destruct d; reflexivity.
Qed.

Lemma join_format_category (c : category) :
  category_ok c = true ->
  join [LF] (ExportQueries.format_category (export_category c))
  = unlines (category_lines c) ++ [LF].
Proof.
  intros H. apply category_ok_parts in H. destruct H as (_ & _ & Hq).
  rewrite format_category_elements, join_snoc_LF. unfold category_lines.
  rewrite !unlines_app. now rewrite unlines_format_queries.
Qed.

Lemma format_category_nonempty (c : category) :
  ExportQueries.format_category (export_category c) <> [].
Proof.
  rewrite format_category_elements. intros H.
  apply app_eq_nil in H. destruct H as [_ H]. discriminate.
Qed.

(** The rendering is the text of [rendered_lines]. *)
Lemma format_queries_unlines (cats : list category) :
  Forall (fun c => category_ok c = true) cats ->
  ExportQueries.format_queries (export_data cats)
  = unlines (rendered_lines cats).
Proof.
  unfold ExportQueries.format_queries, export_data.
  cbn [ExportQueries.savedQueries ExportQueries.get].
  induction 1 as [|c cs Hc Hcs IH]; [reflexivity|].
  cbn [List.map flat_map rendered_lines].
  rewrite !unlines_app. destruct cs as [|c' cs].
  - cbn [List.map flat_map rendered_lines]. rewrite app_nil_r.
    rewrite join_format_category by assumption.
    reflexivity.
  - rewrite join_app.
    + rewrite IH, join_format_category by assumption.
      rewrite <- !app_assoc. reflexivity.
    + apply format_category_nonempty.
    + cbn [List.map flat_map].
      pose proof (@format_category_nonempty c') as Hn.
      destruct (ExportQueries.format_category (export_category c'));
        [now elim Hn|discriminate].
Qed.

Lemma single_line_nobreak (s : str) :
  single_line s = true -> Forall (fun c => is_linebreak c = false) s.
Proof.
  unfold single_line. rewrite forallb_forall, Forall_forall.
  intros H c Hc. apply H in Hc. now apply negb_true_iff in Hc.
Qed.

Lemma value_lines_nobreak (v : str) :
  Forall (Forall (fun c => is_linebreak c = false)) (value_lines v).
Proof.
  unfold value_lines. destruct (rstrip v).
  - repeat constructor.
  - apply splitlines_nobreak.
Qed.

Ltac closed_line := apply single_line_nobreak; vm_compute; reflexivity.

Lemma query_lines_nobreak (q : query) :
  query_ok q = true ->
  Forall (Forall (fun c => is_linebreak c = false)) (query_lines q).
Proof.
  intros H. apply query_ok_parts in H. destruct H as (Hn & _ & _).
  unfold query_lines. apply Forall_app. split; [|apply Forall_app; split].
  - constructor; [|constructor; [|constructor]].
    + apply Forall_app. split; [closed_line|now apply single_line_nobreak].
    + closed_line.
  - apply value_lines_nobreak.
  - constructor; [closed_line|]. constructor; [constructor|constructor].
Qed.

Lemma category_lines_nobreak (c : category) :
  category_ok c = true ->
  Forall (Forall (fun c => is_linebreak c = false)) (category_lines c).
Proof.
  intros H. apply category_ok_parts in H. destruct H as ([Ht _] & [Hd _] & Hq).
  unfold category_lines, header_lines.
  apply Forall_app. split; [apply Forall_app; split; [|apply Forall_app; split]|].
  - constructor; [|constructor].
    apply Forall_app. split; [closed_line|now apply single_line_nobreak].
  - destruct (description c) eqn:E; constructor; [|constructor].
    apply Forall_app. split; [closed_line|now apply single_line_nobreak].
  - constructor; [closed_line|constructor].
  - induction Hq as [|q qs Hq _ IH]; [constructor|].
    cbn [flat_map]. apply Forall_app. split; [|assumption].
    now apply query_lines_nobreak.
Qed.

Lemma rendered_lines_nobreak (cats : list category) :
  Forall (fun c => category_ok c = true) cats ->
  Forall (Forall (fun c => is_linebreak c = false)) (rendered_lines cats).
Proof.
  induction 1 as [|c cs Hc _ IH]; [constructor|].
  cbn [rendered_lines]. apply Forall_app. split; [|apply Forall_app; split].
  - now apply category_lines_nobreak.
  - destruct cs; repeat (constructor; [constructor|]); constructor.
  - assumption.
Qed.

(** The lines that the parser reads from a rendering. *)
Lemma splitlines_format_queries (cats : list category) :
  Forall (fun c => category_ok c = true) cats ->
  splitlines (ExportQueries.format_queries (export_data cats))
  = rendered_lines cats.
Proof.
  intros H. rewrite format_queries_unlines by assumption.
  apply splitlines_unlines. now apply rendered_lines_nobreak.
Qed.

End RenderFacts.

(** ** Rendering and parsing back: the parser on the lines *)

Module ParseBackFacts.

Import ImportQueries RoundTrip PyStrFacts ParserFacts RenderFacts.

#[local] Arguments times : simpl never.
#[local] Arguments lit : simpl never.
#[local] Arguments is_blank : simpl never.
#[local] Arguments startswith : simpl never.
#[local] Arguments strip : simpl never.
#[local] Arguments rstrip : simpl never.
#[local] Arguments is_separator_line : simpl never.

Lemma dropwhile_idem (p : char -> bool) (l : str) :
  dropwhile p (dropwhile p l) = dropwhile p l.
Proof.
  induction l as [|c l IH]; [reflexivity|].
  simpl. destruct (p c) eqn:E; [assumption|]. simpl. now rewrite E.
Qed.

Lemma rstrip_idem (s : str) : rstrip (rstrip s) = rstrip s.
Proof. unfold rstrip. now rewrite rev_involutive, dropwhile_idem. Qed.

(** *** The lines of the rendering, as the parser tests them *)

Lemma category_line (t : str) :
  let line := lit "Category: " ++ t in
  is_blank line = false
  /\ startswith Category_ line = true
  /\ strip (skipn (length Category_) line) = strip t.
Proof.
  change (lit "Category: " ++ t) with (Category_ ++ 32%N :: t).
  cbv zeta. split; [|split].
  - now apply is_blank_cons_nonspace.
  - apply startswith_app.
  - rewrite skipn_length_app. now apply strip_cons_space.
Qed.

Lemma description_line (d : str) :
  let line := lit "Description: " ++ d in
  is_blank line = false
  /\ startswith Description_ line = true
  /\ strip (skipn (length Description_) line) = strip d.
Proof.
  change (lit "Description: " ++ d) with (Description_ ++ 32%N :: d).
  cbv zeta. split; [|split].
  - now apply is_blank_cons_nonspace.
  - apply startswith_app.
  - rewrite skipn_length_app. now apply strip_cons_space.
Qed.

Lemma query_name_line_facts (n : str) :
  let line := lit "Query Name: " ++ n in
  is_blank line = false
  /\ startswith Category_ line = false
  /\ startswith Query_Name_ line = true
  /\ strip (skipn (length Query_Name_) line) = strip n.
Proof.
  change (lit "Query Name: " ++ n) with (Query_Name_ ++ 32%N :: n).
  cbv zeta. split; [|split; [|split]].
  - now apply is_blank_cons_nonspace.
  - reflexivity.
  - apply startswith_app.
  - rewrite skipn_length_app. now apply strip_cons_space.
Qed.

Lemma eq_separator :
  let line := times eq_sign 40 in
  is_blank line = false
  /\ startswith Category_ line = false
  /\ startswith Description_ line = false
  /\ is_separator_line line eq_sign = true.
Proof. vm_compute. repeat split. Qed.

Lemma dash_separator :
  let line := times dash 40 in
  is_blank line = false /\ is_separator_line line dash = true.
Proof. vm_compute. repeat split. Qed.

Lemma text_line_ok_parts (l : str) :
  text_line_ok l = true ->
  is_blank l = false /\ is_separator_line l eq_sign = false
  /\ startswith Category_ l = false.
Proof.
  unfold text_line_ok. intros H.
  apply andb_prop in H. destruct H as [H H3].
  apply andb_prop in H. destruct H as [H1 H2].
  repeat split; now apply negb_true_iff.
Qed.

(** *** The turns of the loop on them *)

Lemma run_blank v i rest : run v i ([] :: rest) = run v (S i) rest.
Proof. now rewrite run_turn. Qed.

Lemma run_header (c : category) saved prev st i rest :
  strip (title c) = title c ->
  strip (description c) = description c ->
  exists i',
    run (mk_vars saved prev None st) i (header_lines c ++ rest)
    = run (mk_vars (saved ++ closed prev)
                   (Some (mk_category (title c) (description c) []))
                   None in_category) i' rest.
Proof.
  intros Ht Hd. rewrite run_turn. unfold header_lines.
  destruct (category_line (title c)) as (B & C & T).
  destruct eq_separator as (SB & SC & SD & SS).
  cbn [app turn]. unfold loop_body. rewrite B, C. unfold category_branch.
  rewrite T, Ht. cbn [current_category current_query saved_queries].
  assert (E : (let '(saved0, cq) :=
                 match prev with
                 | Some c0 => (saved ++ [c0], @None open_query)
                 | None => (saved, None)
                 end in (saved0, cq)) = (saved ++ closed prev, None)).
  { destruct prev; simpl; [reflexivity|now rewrite app_nil_r]. }
  destruct (description c) as [|x d] eqn:Ed.
  - cbn [app skip_blank]. rewrite SB, SD. cbn [skip_blank]. rewrite SB, SS.
    destruct prev; cbn [closed]; rewrite ?app_nil_r; eauto.
  - destruct (description_line (x :: d)) as (DB & DS & DT).
    cbn [app skip_blank]. rewrite DB, DS, DT, Hd. cbn [skip_blank].
    rewrite SB, SS.
    destruct prev; cbn [closed]; rewrite ?app_nil_r; eauto.
Qed.

Lemma run_text_lines (L : list str) saved c n rest :
  forall acc i,
    Forall (fun l => text_line_ok l = true) L ->
    run (mk_vars saved (Some c) (Some (mk_open n acc)) in_query_value) i
        (L ++ rest)
    = run (mk_vars saved (Some c) (Some (mk_open n (acc ++ L))) in_query_value)
          (i + length L) rest.
Proof.
  induction L as [|l L IH]; intros acc i H.
  - simpl. now rewrite app_nil_r, Nat.add_0_r.
  - inversion H as [|? ? Hl HL]; subst.
    apply text_line_ok_parts in Hl. destruct Hl as (B & S & C).
    rewrite run_turn. cbn [app turn]. unfold loop_body. rewrite B, C.
    cbn [state pstate_eqb andb]. unfold value_branch. rewrite S.
    cbn [current_query current_category saved_queries oq_name oq_value].
    rewrite IH by assumption. rewrite <- app_assoc. simpl. f_equal. lia.
Qed.

Lemma run_query (q : query) saved c i rest :
  query_ok q = true ->
  exists i',
    run (mk_vars saved (Some c) None in_category) i (query_lines q ++ rest)
    = run (mk_vars saved (Some (append_query c (trim_query q))) None
                   in_category) i' rest.
Proof.
  intros H. apply query_ok_parts in H. destruct H as (_ & Hn & Hv).
  destruct (value_ok_lines _ Hv) as (_ & Hok & Hj).
  destruct (query_name_line_facts (name q)) as (B & C & Q & N).
  destruct dash_separator as (DB & DS).
  destruct eq_separator as (SB & SC & _ & SS).
  rewrite run_turn. unfold query_lines. cbn [app turn]. unfold loop_body.
  rewrite B, C, Q. cbn [state pstate_eqb andb]. unfold query_branch.
  cbn [current_query current_category saved_queries skip_blank].
  rewrite DB, DS, N, Hn.
  assert (Hend : forall acc j,
             rstrip (join [LF] acc) = rstrip (value q) ->
             exists i',
               run (mk_vars saved (Some c) (Some (mk_open (name q) acc))
                            in_query_value) j
                   (times eq_sign 40 :: [] :: rest)
               = run (mk_vars saved (Some (append_query c (trim_query q))) None
                              in_category) i' rest).
  { intros acc j Hacc. rewrite run_turn. cbn [turn]. unfold loop_body.
    rewrite SB, SC. cbn [state pstate_eqb andb]. unfold value_branch.
    rewrite SS. cbn [current_query current_category saved_queries].
    rewrite run_blank. unfold finalize. cbn [oq_name oq_value].
    rewrite Hacc. eauto. }
  unfold value_lines. destruct (rstrip (value q)) as [|x t] eqn:Ev.
  - cbn [app]. rewrite run_blank. apply Hend. reflexivity.
  - rewrite <- app_assoc. rewrite run_text_lines by assumption.
    cbn [app]. apply Hend. rewrite Hj. rewrite <- Ev. apply rstrip_idem.
Qed.

Lemma run_queries (qs : list query) saved i rest :
  forall c,
    Forall (fun q => query_ok q = true) qs ->
    exists i',
      run (mk_vars saved (Some c) None in_category) i
          (flat_map query_lines qs ++ rest)
      = run (mk_vars saved
                     (Some (mk_category (title c) (description c)
                              (queries c ++ List.map trim_query qs)))
                     None in_category) i' rest.
Proof.
  revert i. induction qs as [|q qs IH]; intros i c H.
  - exists i. cbn [flat_map List.map app]. rewrite app_nil_r. now destruct c.
  - inversion H as [|? ? Hq Hqs]; subst.
    cbn [flat_map List.map]. rewrite <- app_assoc.
    destruct (@run_query q saved c i (flat_map query_lines qs ++ rest) Hq)
      as [i1 E1].
    destruct (IH i1 (append_query c (trim_query q)) Hqs) as [i2 E2].
    exists i2. rewrite E1, E2. cbn [append_query title description queries].
    now rewrite <- app_assoc.
Qed.

Lemma run_category (c : category) saved prev st i rest :
  category_ok c = true ->
  exists i',
    run (mk_vars saved prev None st) i (category_lines c ++ rest)
    = run (mk_vars (saved ++ closed prev) (Some (trim_category c)) None
                   in_category) i' rest.
Proof.
  intros H. apply category_ok_parts in H. destruct H as ([_ Ht] & [_ Hd] & Hq).
  unfold category_lines. rewrite <- app_assoc.
  destruct (@run_header c saved prev st i
              (flat_map query_lines (queries c) ++ rest) Ht Hd) as [i1 E1].
  destruct (@run_queries (queries c) (saved ++ closed prev) i1 rest
              (mk_category (title c) (description c) []) Hq) as [i2 E2].
  exists i2. now rewrite E1, E2.
Qed.

Lemma run_rendered_lines (cats : list category) :
  forall saved prev st i,
    Forall (fun c => category_ok c = true) cats ->
    run (mk_vars saved prev None st) i (rendered_lines cats)
    = Ok (saved ++ closed prev ++ List.map trim_category cats).
Proof.
  induction cats as [|c cs IH]; intros saved prev st i H.
  - rewrite run_nil. unfold at_end. cbn [current_query current_category
                                         saved_queries List.map].
    rewrite app_nil_r. now destruct prev; cbn [closed]; rewrite ?app_nil_r.
  - inversion H as [|? ? Hc Hcs]; subst. cbn [rendered_lines].
    destruct (@run_category c saved prev st i
                (match cs with [] => [[]] | _ => [[]; []] end
                 ++ rendered_lines cs) Hc) as [i1 E1].
    rewrite E1.
    assert (E2 : exists i2,
               run (mk_vars (saved ++ closed prev) (Some (trim_category c))
                            None in_category) i1
                   (match cs with [] => [[]] | _ => [[]; []] end
                    ++ rendered_lines cs)
               = run (mk_vars (saved ++ closed prev) (Some (trim_category c))
                              None in_category) i2 (rendered_lines cs)).
    { destruct cs; cbn [app]; rewrite ?run_blank; eauto. }
    destruct E2 as [i2 E2]. rewrite E2, IH by assumption.
    cbn [closed List.map app]. now rewrite <- app_assoc.
Qed.

End ParseBackFacts.

(** ** Rendering and parsing back: specification *)

Module RoundTripSpec.

Import ImportQueries RoundTrip RenderFacts ParseBackFacts Samples.

(** C1, as the code has it: a category list whose titles, descriptions
    and item names hold no line boundary and have no white space around,
    and whose item texts, once right-stripped, have single line feeds as
    line boundaries and no line that is blank, that [is_separator_line]
    takes for a [=] separator (a run of [=] with white space, if any,
    before and after) or that begins with [Category:], is rendered by
    [format_queries] into a text that [parse_plain_text] parses into the
    same category list, the item texts right-stripped. *)
Theorem round_trip_of_plain_categories (cats : list category) :
  Forall (fun c => category_ok c = true) cats ->
  parse_plain_text (ExportQueries.format_queries (export_data cats))
  = Ok (List.map trim_category cats).
Proof.
  intros H. unfold parse_plain_text.
  rewrite splitlines_format_queries by assumption.
  exact (run_rendered_lines [] None init 0 H).
Qed.

Lemma round_trip_of_plain_categories_witness :
  Forall (fun c => category_ok c = true) categories_plain
  /\ parse_plain_text
       (ExportQueries.format_queries (export_data categories_plain))
     = Ok (List.map trim_category categories_plain).
Proof.
  assert (H : Forall (fun c => category_ok c = true) categories_plain)
    by (repeat constructor).
  split; [exact H|]. exact (round_trip_of_plain_categories H).
Defined.

(** C1, the claim refuted: six category lists that the round trip
    changes beyond the trimming of the item texts. *)
Lemma round_trip_loses_text :
  ~ round_trips categories_blank_inside
  /\ ~ round_trips categories_space_in_title
  /\ ~ round_trips categories_eq_line
  /\ ~ round_trips categories_padded_eq_line
  /\ ~ round_trips categories_category_line
  /\ ~ round_trips categories_crlf.
Proof.
  repeat split; intros H; vm_compute in H; discriminate.
Qed.

(** The line of [=] with a space in front ends the text of the item as
    the bare one does, and the condition of the round trip leaves both
    out. *)
Example padded_eq_line_ends_the_text :
  parse_plain_text
    (ExportQueries.format_queries (export_data categories_padded_eq_line))
  = Ok [mk_category (lit "A") [] [mk_query (lit "q") (lit "SELECT 1")]]
  /\ category_ok (hd cat_A categories_padded_eq_line) = false
  /\ category_ok (hd cat_A categories_eq_line) = false.
Proof. repeat split. Qed.

(** What the parser gives back for the first of them. *)
Example round_trip_drops_blank_line :
  parse_plain_text
    (ExportQueries.format_queries (export_data categories_blank_inside))
  = Ok [mk_category (lit "A") []
          [mk_query (lit "q") (lit "SELECT 1
FROM t")]].
Proof. reflexivity. Qed.

End RoundTripSpec.

(** ** The flat-text parser: further laws *)

Module ParserLaws.

Import ImportQueries ParserFacts PyStrFacts Laws Samples.

Unset Implicit Arguments.

(** *** Lines outside a category *)

Lemma turn_outside_category v i line rest :
  outside_category (state v) = true ->
  startswith Category_ line = false ->
  turn v i (line :: rest) = Next v (S i) rest.
Proof.
  intros Hs Hc. simpl. unfold loop_body. rewrite Hc.
  destruct (is_blank line); [reflexivity|].
  destruct (state v); try discriminate; reflexivity.
Qed.

Lemma run_outside_category (rest : list str) :
  forall v i,
    outside_category (state v) = true ->
    Forall (fun l => startswith Category_ l = false) rest ->
    run v i rest = at_end v.
Proof.
  induction rest as [|line rest IH]; intros v i Hs H.
  - apply run_nil.
  - inversion H as [|? ? H1 H2]; subst.
    rewrite run_turn, turn_outside_category by assumption. now apply IH.
Qed.

(** X6: once the parser waits for a category (state [init], or
    [category_header] after a [Category:] line with no [=] separator),
    every line up to the next [Category:] line is ignored: when no such
    line is left, the result is the one of the end of input. *)
Theorem lines_outside_category_ignored
        (text : str) (v : vars) (i : nat) (rest : list str) :
  reaches (splitlines text) v i rest ->
  outside_category (state v) = true ->
  Forall (fun l => startswith Category_ l = false) rest ->
  parse_plain_text text = at_end v.
Proof.
  intros Hr Hs H. unfold parse_plain_text. rewrite (reaches_run Hr).
  now apply run_outside_category.
Qed.

Lemma lines_outside_category_ignored_witness :
  reaches (splitlines text_no_eq_separator)
          (mk_vars [] (Some cat_A) None category_header) 1
          [lit "Query Name: q"; lit "----"; lit "SELECT 1"; lit "===="]
  /\ parse_plain_text text_no_eq_separator
     = at_end (mk_vars [] (Some cat_A) None category_header).
Proof.
  assert (H : reaches (splitlines text_no_eq_separator)
                (mk_vars [] (Some cat_A) None category_header) 1
                [lit "Query Name: q"; lit "----"; lit "SELECT 1"; lit "===="])
    by (exists 1; reflexivity).
  split; [exact H|].
  apply (lines_outside_category_ignored text_no_eq_separator _ _ _ H).
  - reflexivity.
  - repeat (constructor; [reflexivity|]). constructor.
Defined.

(** *** The cursor *)

Lemma skip_blank_split (rest : list str) :
  forall i,
    exists blanks,
      rest = blanks ++ snd (skip_blank i rest)
      /\ fst (skip_blank i rest) = i + length blanks
      /\ Forall (fun l => is_blank l = true) blanks
      /\ match snd (skip_blank i rest) with
         | [] => True
         | l :: _ => is_blank l = false
         end.
Proof.
  induction rest as [|l rest IH]; intros i.
  - exists []. simpl. repeat split; [lia|constructor].
  - simpl. destruct (is_blank l) eqn:E.
    + destruct (IH (S i)) as (blanks & H1 & H2 & H3 & H4).
      exists (l :: blanks). simpl. repeat split.
      * now f_equal.
      * rewrite H2. lia.
      * now constructor.
      * assumption.
    + exists []. simpl. repeat split; [lia|constructor|assumption].
Qed.

Lemma blank_not_category (l : str) :
  is_blank l = true -> startswith Category_ l = false.
Proof.
  intros H. destruct (startswith Category_ l) eqn:E; [|reflexivity].
  change Category_ with (67%N :: lit "ategory:") in E.
  destruct (startswith_head _ _ _ E) as [l' ->].
  rewrite is_blank_cons_nonspace in H by reflexivity. discriminate.
Qed.

Lemma description_not_category (l : str) :
  startswith Description_ l = true -> startswith Category_ l = false.
Proof.
  intros H. change Description_ with (68%N :: lit "escription:") in H.
  destruct (startswith_head _ _ _ H) as [l' ->]. reflexivity.
Qed.

Lemma separator_not_category (l : str) (c : char) :
  c <> 67%N -> is_separator_line l c = true -> startswith Category_ l = false.
Proof.
  intros Hc H. destruct (startswith Category_ l) eqn:E; [|reflexivity].
  change Category_ with (67%N :: lit "ategory:") in E.
  destruct (startswith_head _ _ _ E) as [l' ->].
  unfold is_separator_line in H.
  rewrite strip_cons_nonspace in H by reflexivity.
  cbn [forallb] in H. apply andb_prop in H. destruct H as [H _].
  apply N.eqb_eq in H. now elim Hc.
Qed.

(** A turn that goes on has read the line at the cursor and, behind it,
    lines that do not start a category; the cursor has moved by as
    much. *)
Lemma turn_used v i rest v' i' rest' :
  turn v i rest = Next v' i' rest' ->
  exists line extra,
    rest = line :: extra ++ rest'
    /\ i' = i + S (length extra)
    /\ Forall (fun l => startswith Category_ l = false) extra.
Proof.
  destruct rest as [|line rest]; simpl; [discriminate|].
  assert (One : forall w, Next w (S i) rest = Next v' i' rest' ->
                exists line0 extra,
                  line :: rest = line0 :: extra ++ rest'
                  /\ i' = i + S (length extra)
                  /\ Forall (fun l => startswith Category_ l = false) extra).
  { intros w H. inversion H; subst. exists line, [].
    repeat split; [simpl; lia|constructor]. }
  assert (Blank : forall b, Forall (fun l => is_blank l = true) b ->
                  Forall (fun l => startswith Category_ l = false) b).
  { intros b Hb. eapply Forall_impl; [|exact Hb]. apply blank_not_category. }
  unfold loop_body. destruct (is_blank line); [apply One|].
  destruct (startswith Category_ line).
  { unfold category_branch.
    destruct (match current_category v with
              | Some c => _ | None => _ end) as [saved cq].
    destruct (skip_blank_split rest (S i)) as (b1 & R1 & I1 & B1 & _).
    destruct (skip_blank (S i) rest) as [i1 rest1]. simpl in R1, I1.
    destruct (match rest1 with
              | [] => _ | l :: r => _ end) as [[desc i2] rest2] eqn:Hd.
    assert (D : exists d, rest1 = d ++ rest2 /\ i2 = i1 + length d
                /\ Forall (fun l => startswith Category_ l = false) d).
    { destruct rest1 as [|l r].
      - inversion Hd; subst. exists [].
        repeat split; [simpl; lia|constructor].
      - destruct (startswith Description_ l) eqn:El; inversion Hd; subst.
        + exists [l]. repeat split; [simpl; lia|].
          constructor; [now apply description_not_category|constructor].
        + exists []. repeat split; [simpl; lia|constructor]. }
    destruct D as (d & R2 & I2 & D2).
    destruct (skip_blank_split rest2 i2) as (b3 & R3 & I3 & B3 & _).
    destruct (skip_blank i2 rest2) as [i3 rest3]. simpl in R3, I3.
    assert (E : forall tl n,
               rest3 = tl ++ rest' -> i' = i3 + n -> n = length tl ->
               Forall (fun l => startswith Category_ l = false) tl ->
               exists line0 extra,
                 line :: rest = line0 :: extra ++ rest'
                 /\ i' = i + S (length extra)
                 /\ Forall (fun l => startswith Category_ l = false) extra).
    { intros tl n Htl Hi' Hn Ht. exists line, (b1 ++ d ++ b3 ++ tl).
      repeat split.
      - f_equal. rewrite R1, R2, R3, Htl. now rewrite <- !app_assoc.
      - rewrite !length_app. lia.
      - repeat (apply Forall_app; split); auto. }
    destruct rest3 as [|l r].
    - intros H; inversion H; subst.
      apply (E [] 0); [reflexivity|lia|reflexivity|constructor].
    - destruct (is_separator_line l eq_sign) eqn:El;
        intros H; inversion H; subst.
      + apply (E [l] 1); [reflexivity|lia|reflexivity|].
        constructor; [|constructor].
        eapply separator_not_category; [|exact El]. discriminate.
      + apply (E [] 0); [reflexivity|lia|reflexivity|constructor]. }
  destruct (pstate_eqb (state v) in_category && startswith Query_Name_ line).
  { unfold query_branch.
    destruct (skip_blank_split rest (S i)) as (b1 & R1 & I1 & B1 & _).
    destruct (skip_blank (S i) rest) as [i1 rest1]. simpl in R1, I1.
    destruct (current_query v); [destruct (current_category v)|];
      try discriminate;
      (destruct rest1 as [|l r]; [discriminate|];
       destruct (is_separator_line l dash) eqn:El; [|discriminate];
       intros H; inversion H; subst;
       exists line, (b1 ++ [l]); repeat split;
       [f_equal; now rewrite <- app_assoc
       |rewrite length_app; simpl; lia
       |apply Forall_app; split; [auto|];
        constructor; [|constructor];
        eapply separator_not_category; [|exact El]; discriminate]). }
  destruct (pstate_eqb (state v) in_query_value).
  { unfold value_branch.
    destruct (is_separator_line line eq_sign);
      (destruct (current_query v); [|discriminate]);
      try (destruct (current_category v); [|discriminate]);
      apply One. }
  apply One.
Qed.

Lemma turn_split v i rest v' i' rest' :
  turn v i rest = Next v' i' rest' ->
  exists used, rest = used ++ rest' /\ i' = i + length used /\ used <> [].
Proof.
  intros H. apply turn_used in H. destruct H as (line & extra & R & I & _).
  exists (line :: extra). repeat split; [assumption|simpl; lia|discriminate].
Qed.

Lemma turns_split (n : nat) :
  forall v i rest v' i' rest',
    turns n v i rest = Next v' i' rest' ->
    exists used, rest = used ++ rest' /\ i' = i + length used.
Proof.
  induction n as [|n IH]; intros v i rest v' i' rest' H.
  - simpl in H. inversion H; subst. exists []. split; [reflexivity|simpl; lia].
  - rewrite turns_S in H.
    destruct (turn v i rest) as [v1 i1 rest1|] eqn:E; [|discriminate].
    apply turn_split in E. destruct E as (u1 & R1 & I1 & _).
    apply IH in H. destruct H as (u2 & R2 & I2).
    exists (u1 ++ u2). split.
    + rewrite R1, R2. now rewrite app_assoc.
    + rewrite length_app. lia.
Qed.

(** The cursor [i] and the lines left are the same position of the
    text. *)
Lemma reaches_cursor lines v i rest :
  reaches lines v i rest ->
  exists pre, lines = pre ++ rest /\ length pre = i.
Proof.
  intros [n Hn]. apply turns_split in Hn. destruct Hn as (u & R & I).
  exists u. split; [assumption|lia].
Qed.

(** *** The line that the exit reports *)

Lemma run_fail_turn (k : nat) :
  forall v i rest f,
    length rest <= k ->
    run v i rest = Fail f ->
    exists m v' i' rest',
      turns m v i rest = Next v' i' rest' /\ turn v' i' rest' = Stop (Fail f).
Proof.
  induction k as [|k IH]; intros v i rest f Hk H; rewrite run_turn in H;
    destruct (turn v i rest) as [v1 i1 rest1|r] eqn:E.
  - apply turn_shrinks in E. lia.
  - subst r. exists 0, v, i, rest. split; [reflexivity|assumption].
  - pose proof (turn_shrinks _ _ _ E) as Hl.
    apply IH in H; [|lia]. destruct H as (m & v' & i' & rest' & H1 & H2).
    exists (S m), v', i', rest'. split; [|assumption].
    rewrite turns_S, E. assumption.
  - subst r. exists 0, v, i, rest. split; [reflexivity|assumption].
Qed.

(** The only turn that leaves through the exit is the one of a
    [Query Name:] line read in state [in_category]. *)
Lemma turn_stop_dash v i rest n :
  turn v i rest = Stop (Fail (ExpectedDashSeparator n)) ->
  exists line r,
    rest = line :: r
    /\ state v = in_category
    /\ startswith Query_Name_ line = true
    /\ n = fst (skip_blank (S i) r) + 1
    /\ match snd (skip_blank (S i) r) with
       | [] => True
       | l :: _ => is_separator_line l dash = false
       end.
Proof.
  destruct rest as [|line rest]; simpl.
  { unfold at_end.
    destruct (current_query v); destruct (current_category v); discriminate. }
  unfold loop_body. destruct (is_blank line); [discriminate|].
  destruct (startswith Category_ line).
  { destruct (category_branch_next v i line rest) as (v1 & i1 & r1 & -> & _).
    discriminate. }
  destruct (pstate_eqb (state v) in_category && startswith Query_Name_ line)
    eqn:Hb.
  { apply andb_prop in Hb. destruct Hb as [Hs Hq]. apply pstate_eqb_eq in Hs.
    unfold query_branch. intros H. exists line, rest.
    destruct (skip_blank (S i) rest) as [i1 rest1]. simpl.
    assert (G : match rest1 with
                | [] => Stop (Fail (ExpectedDashSeparator (i1 + 1)))
                | l :: r0 =>
                    if is_separator_line l dash
                    then Stop (Ok [])
                    else Stop (Fail (ExpectedDashSeparator (i1 + 1)))
                end = Stop (Fail (ExpectedDashSeparator n))).
    { destruct (current_query v); [destruct (current_category v)|];
        try discriminate;
        (destruct rest1 as [|l r0]; [assumption|];
         destruct (is_separator_line l dash); [discriminate|assumption]). }
    repeat split; try assumption.
    - destruct rest1 as [|l r0]; [|destruct (is_separator_line l dash)];
        inversion G; reflexivity.
    - destruct rest1 as [|l r0]; [exact I|].
      destruct (is_separator_line l dash); [discriminate|reflexivity]. }
  destruct (pstate_eqb (state v) in_query_value); [|discriminate].
  unfold value_branch.
  destruct (is_separator_line line eq_sign);
    (destruct (current_query v); [|discriminate]);
    try (destruct (current_category v)); discriminate.
Qed.

(** X7: when the parser leaves through the exit of the missing [-]
    separator, the line number of the message (counted from 1) is that of
    the first non-blank line after a [Query Name:] line, which is not a
    [-] separator, or is one past the last line when only blank lines
    follow. *)
Theorem missing_dash_reported_line (text : str) (n : nat) :
  parse_plain_text text = Fail (ExpectedDashSeparator n) ->
  exists j,
    j + 2 <= n /\ n <= length (splitlines text) + 1
    /\ (exists l, nth_error (splitlines text) j = Some l
                  /\ startswith Query_Name_ l = true)
    /\ (forall k l, j < k -> k + 1 < n ->
                    nth_error (splitlines text) k = Some l ->
                    is_blank l = true)
    /\ match nth_error (splitlines text) (n - 1) with
       | Some l => is_blank l = false /\ is_separator_line l dash = false
       | None => n = length (splitlines text) + 1
       end.
Proof.
  unfold parse_plain_text, parse_lines. intros H.
  apply (run_fail_turn _ _ _ _ _ (Nat.le_refl _)) in H.
  destruct H as (m & v & i & rest & Hm & Ht).
  destruct (reaches_cursor _ _ _ _ (ex_intro _ m Hm)) as (pre & Hl & Hi).
  apply turn_stop_dash in Ht.
  destruct Ht as (line & r & -> & _ & Hq & Hn & Hsep).
  destruct (skip_blank_split r (S i)) as (blanks & R & I & B & NB).
  destruct (skip_blank (S i) r) as [i1 rest1]. simpl in *.
  set (lines := splitlines text) in *.
  assert (Hlines : lines = (pre ++ line :: blanks) ++ rest1).
  { rewrite Hl, R. now rewrite <- app_assoc. }
  assert (Hi1 : i1 = length (pre ++ line :: blanks)).
  { rewrite length_app. simpl. lia. }
  exists i. repeat split.
  - lia.
  - rewrite Hlines, length_app. lia.
  - exists line. split; [|assumption].
    rewrite Hl, nth_error_app2 by lia.
    replace (i - length pre) with 0 by lia. reflexivity.
  - intros k l Hk1 Hk2 Hk.
    rewrite Hl in Hk. rewrite nth_error_app2 in Hk by lia.
    replace (k - length pre) with (S (k - S i)) in Hk by lia.
    simpl in Hk. rewrite R in Hk.
    rewrite nth_error_app1 in Hk by lia.
    rewrite Forall_forall in B. apply B. eapply nth_error_In; eauto.
  - replace (n - 1) with i1 by lia.
    rewrite Hlines, nth_error_app2 by lia.
    replace (i1 - length (pre ++ line :: blanks)) with 0 by lia.
    destruct rest1 as [|l r1]; simpl.
    + rewrite app_nil_r. lia.
    + split; assumption.
Qed.

Lemma missing_dash_reported_line_witness :
  parse_plain_text text_no_dash_separator = Fail (ExpectedDashSeparator 5)
  /\ exists j,
      j + 2 <= 5 /\ 5 <= length (splitlines text_no_dash_separator) + 1
      /\ (exists l, nth_error (splitlines text_no_dash_separator) j = Some l
                    /\ startswith Query_Name_ l = true)
      /\ (forall k l, j < k -> k + 1 < 5 ->
                      nth_error (splitlines text_no_dash_separator) k = Some l ->
                      is_blank l = true)
      /\ match nth_error (splitlines text_no_dash_separator) (5 - 1) with
         | Some l => is_blank l = false /\ is_separator_line l dash = false
         | None => 5 = length (splitlines text_no_dash_separator) + 1
         end.
Proof.
  assert (H : parse_plain_text text_no_dash_separator
              = Fail (ExpectedDashSeparator 5)) by reflexivity.
  split; [exact H|]. exact (missing_dash_reported_line _ _ H).
Defined.

(** *** Blank lines *)

Lemma without_blank_cons (l : str) (rest : list str) :
  is_blank l = false ->
  without_blank_lines (l :: rest) = l :: without_blank_lines rest.
Proof. intros H. unfold without_blank_lines. simpl. now rewrite H. Qed.

Lemma without_blank_skip (l : str) (rest : list str) :
  is_blank l = true ->
  without_blank_lines (l :: rest) = without_blank_lines rest.
Proof. intros H. unfold without_blank_lines. simpl. now rewrite H. Qed.

Lemma skip_blank_filter (rest : list str) :
  forall i j,
    match snd (skip_blank i rest) with
    | [] => skip_blank j (without_blank_lines rest) = (j, [])
    | l :: r =>
        is_blank l = false
        /\ skip_blank j (without_blank_lines rest)
           = (j, l :: without_blank_lines r)
    end.
Proof.
  induction rest as [|l rest IH]; intros i j.
  - reflexivity.
  - simpl skip_blank at 1. destruct (is_blank l) eqn:E.
    + rewrite without_blank_skip by assumption. apply IH.
    + rewrite without_blank_cons by assumption. simpl.
      rewrite E. split; reflexivity.
Qed.

Lemma same_outcome_refl r : same_outcome r r.
Proof. destruct r as [a|[]|]; simpl; auto. Qed.

Lemma category_branch_filter v i j line rest :
  same_turn (category_branch v i line rest)
            (category_branch v j line (without_blank_lines rest)).
Proof.
  unfold category_branch.
  destruct (match current_category v with
            | Some c => _ | None => _ end) as [saved cq].
  pose proof (skip_blank_filter rest (S i) (S j)) as H1.
  destruct (skip_blank (S i) rest) as [i1 rest1]. simpl in H1.
  destruct rest1 as [|l r].
  - rewrite H1. simpl. split; reflexivity.
  - destruct H1 as [Hl H1]. rewrite H1.
    destruct (startswith Description_ l).
    + pose proof (skip_blank_filter r (S i1) (S (S j))) as H2.
      destruct (skip_blank (S i1) r) as [i3 rest3]. simpl in H2.
      destruct rest3 as [|l3 r3].
      * rewrite H2. simpl. split; reflexivity.
      * destruct H2 as [Hl3 H2]. rewrite H2.
        destruct (is_separator_line l3 eq_sign); cbn [same_turn];
          (split; [reflexivity|]); [reflexivity|].
        now rewrite without_blank_cons.
    + simpl skip_blank. rewrite Hl.
      destruct (is_separator_line l eq_sign); cbn [same_turn];
        (split; [reflexivity|]); [reflexivity|].
      now rewrite without_blank_cons.
Qed.

Lemma query_branch_filter v i j line rest :
  same_turn (query_branch v i line rest)
            (query_branch v j line (without_blank_lines rest)).
Proof.
  unfold query_branch.
  pose proof (skip_blank_filter rest (S i) (S j)) as H1.
  destruct (skip_blank (S i) rest) as [i1 rest1]. simpl in H1.
  destruct (match current_query v with
            | Some q => _ | None => _ end) as [cc|f|]; try (simpl; auto).
  - destruct rest1 as [|l r].
    + rewrite H1. simpl. exact I.
    + destruct H1 as [Hl H1]. rewrite H1.
      destruct (is_separator_line l dash); simpl; auto.
  - destruct f; simpl; auto.
Qed.

Lemma loop_body_filter v i j line rest :
  same_turn (loop_body v i line rest)
            (loop_body v j line (without_blank_lines rest)).
Proof.
  unfold loop_body.
  destruct (is_blank line); [simpl; auto|].
  destruct (startswith Category_ line); [apply category_branch_filter|].
  destruct (pstate_eqb (state v) in_category && startswith Query_Name_ line);
    [apply query_branch_filter|].
  destruct (pstate_eqb (state v) in_query_value); [|simpl; auto].
  unfold value_branch.
  destruct (is_separator_line line eq_sign);
    (destruct (current_query v); [|simpl; auto]);
    try (destruct (current_category v)); simpl; auto.
Qed.

Lemma run_filter (k : nat) :
  forall v i j rest,
    length rest <= k ->
    same_outcome (run v i rest) (run v j (without_blank_lines rest)).
Proof.
  induction k as [|k IH]; intros v i j rest Hk.
  - destruct rest; [|simpl in Hk; lia]. apply same_outcome_refl.
  - destruct rest as [|line rest]; [apply same_outcome_refl|].
    simpl in Hk. destruct (is_blank line) eqn:E.
    + rewrite without_blank_skip by assumption.
      rewrite run_turn. simpl. unfold loop_body. rewrite E.
      apply IH. lia.
    + rewrite without_blank_cons by assumption.
      rewrite (run_turn v i), (run_turn v j). cbn [turn].
      pose proof (loop_body_filter v i j line rest) as H.
      destruct (loop_body v i line rest) as [v1 i1 r1|a] eqn:E1;
        destruct (loop_body v j line (without_blank_lines rest))
        as [v2 i2 r2|b]; simpl in H; try contradiction; [|assumption].
      destruct H as [-> ->].
      assert (Hl : length r1 < length (line :: rest))
        by (apply (@turn_shrinks v i (line :: rest) v2 i1 r1); exact E1).
      apply IH. simpl in Hl. lia.
Qed.

(** X1: blank lines carry nothing: the parser returns the same category
    list on a text and on its lines without the blank ones, and leaves
    through the exit on the one when it does on the other. *)
Theorem blank_lines_do_not_matter (text : str) :
  same_outcome (parse_plain_text text)
               (parse_lines (without_blank_lines (splitlines text))).
Proof.
  unfold parse_plain_text, parse_lines.
  apply (run_filter (length (splitlines text)) initial 0 0 (splitlines text)).
  apply Nat.le_refl.
Qed.

(** The loop returns a category list at the end of the input only. *)
Lemma turn_stop_ok v i rest cats :
  turn v i rest = Stop (Ok cats) -> rest = [] /\ at_end v = Ok cats.
Proof.
  destruct rest as [|line rest]; simpl.
  { intros H. inversion H. split; reflexivity. }
  intros E. exfalso. unfold loop_body in E.
  destruct (is_blank line); [discriminate|].
  destruct (startswith Category_ line).
  { destruct (category_branch_next v i line rest)
      as (v1 & i1 & r1 & E1 & _). congruence. }
  destruct (pstate_eqb (state v) in_category && startswith Query_Name_ line).
  { unfold query_branch in E.
    destruct (skip_blank (S i) rest) as [i1 rest1].
    destruct (current_query v); [destruct (current_category v)|];
      try discriminate;
      (destruct rest1 as [|l r]; [discriminate|];
       destruct (is_separator_line l dash); discriminate). }
  destruct (pstate_eqb (state v) in_query_value); [|discriminate].
  unfold value_branch in E.
  destruct (is_separator_line line eq_sign);
    (destruct (current_query v); [|discriminate]);
    try (destruct (current_category v)); discriminate.
Qed.

(** *** Titles *)

Lemma category_titles_app (a b : list str) :
  category_titles (a ++ b) = category_titles a ++ category_titles b.
Proof. unfold category_titles. now rewrite filter_app, map_app. Qed.

Lemma category_titles_none (extra : list str) :
  Forall (fun l => startswith Category_ l = false) extra ->
  category_titles extra = [].
Proof.
  induction 1 as [|l extra Hl _ IH]; [reflexivity|].
  unfold category_titles in *. cbn [filter]. now rewrite Hl.
Qed.

Lemma turn_titles v i line rest v' i' rest' :
  turn v i (line :: rest) = Next v' i' rest' ->
  List.map title (held v')
  = List.map title (held v) ++ category_titles [line].
Proof.
  simpl. unfold loop_body, held.
  assert (Same : startswith Category_ line = false ->
                 forall w,
                   List.map title (saved_queries w
                                   ++ RoundTrip.closed (current_category w))
                   = List.map title (saved_queries v
                                     ++ RoundTrip.closed (current_category v)) ->
                   List.map title (saved_queries w
                                   ++ RoundTrip.closed (current_category w))
                   = List.map title (saved_queries v
                                     ++ RoundTrip.closed (current_category v))
                     ++ category_titles [line]).
  { intros Hc w Hw. rewrite Hw. unfold category_titles. cbn [filter].
    rewrite Hc. cbn [List.map]. now rewrite app_nil_r. }
  destruct (is_blank line) eqn:Hb.
  { intros H; inversion H; subst.
    apply Same; [now apply blank_not_category|reflexivity]. }
  destruct (startswith Category_ line) eqn:Hc.
  { unfold category_branch.
    destruct (skip_blank (S i) rest) as [i1 rest1].
    destruct (match rest1 with
              | [] => _ | l :: r => _ end) as [[desc i2] rest2].
    destruct (skip_blank i2 rest2) as [i3 rest3].
    unfold category_titles. cbn [filter]. rewrite Hc.
    cbn [List.map].
    assert (G : forall saved cq st,
               List.map title saved
               = List.map title (saved_queries v
                                 ++ RoundTrip.closed (current_category v)) ->
               List.map title
                 (saved_queries
                    (mk_vars saved
                       (Some (mk_category
                                (strip (skipn (length Category_) line)) desc []))
                       cq st)
                  ++ RoundTrip.closed
                       (current_category
                          (mk_vars saved
                             (Some (mk_category
                                      (strip (skipn (length Category_) line))
                                      desc [])) cq st)))
               = List.map title (saved_queries v
                                 ++ RoundTrip.closed (current_category v))
                 ++ [strip (skipn (length Category_) line)]).
    { intros saved cq st Hs. cbn [saved_queries current_category
                                    RoundTrip.closed].
      rewrite map_app, Hs. reflexivity. }
    destruct (current_category v) as [c|]; [destruct (current_query v)|];
      (destruct rest3 as [|l r]; [|destruct (is_separator_line l eq_sign)];
       intros H; inversion H; subst; apply G;
       cbn [RoundTrip.closed]; rewrite ?map_app, ?app_nil_r; reflexivity). }
  destruct (pstate_eqb (state v) in_category && startswith Query_Name_ line).
  { unfold query_branch. destruct (skip_blank (S i) rest) as [i1 rest1].
    destruct (current_query v); [destruct (current_category v)|];
      try discriminate;
      (destruct rest1 as [|l r]; [discriminate|];
       destruct (is_separator_line l dash); [|discriminate];
       intros H; inversion H; subst; apply Same; [reflexivity|];
       cbn [saved_queries current_category RoundTrip.closed];
       rewrite ?map_app; reflexivity). }
  destruct (pstate_eqb (state v) in_query_value).
  { unfold value_branch.
    destruct (is_separator_line line eq_sign);
      (destruct (current_query v); [|discriminate]);
      try (destruct (current_category v) eqn:Ec; [|discriminate]);
      intros H; inversion H; subst; apply Same; try reflexivity;
      cbn [saved_queries current_category RoundTrip.closed];
      rewrite ?map_app; reflexivity. }
  intros H; inversion H; subst. apply Same; reflexivity.
Qed.

Lemma at_end_titles v cats :
  at_end v = Ok cats -> List.map title cats = List.map title (held v).
Proof.
  unfold at_end, held.
  destruct (current_query v); destruct (current_category v);
    intros H; inversion H; subst; cbn [RoundTrip.closed];
    rewrite ?map_app, ?app_nil_r; reflexivity.
Qed.

Lemma run_titles (k : nat) :
  forall v i rest cats,
    length rest <= k ->
    run v i rest = Ok cats ->
    List.map title cats = List.map title (held v) ++ category_titles rest.
Proof.
  induction k as [|k IH]; intros v i rest cats Hk H.
  - destruct rest; [|simpl in Hk; lia]. rewrite run_nil in H.
    rewrite (at_end_titles _ _ H). now rewrite app_nil_r.
  - rewrite run_turn in H.
    destruct (turn v i rest) as [v1 i1 rest1|r] eqn:E.
    + pose proof E as Hl. apply turn_shrinks in Hl.
      destruct (turn_used _ _ _ _ _ _ E) as (line & extra & R & _ & Hx).
      subst rest.
      apply turn_titles in E.
      apply IH in H; [|simpl in Hl, Hk; lia]. rewrite H, E.
      change (line :: extra ++ rest1) with ([line] ++ extra ++ rest1).
      rewrite !category_titles_app, (category_titles_none _ Hx).
      now rewrite <- app_assoc.
    + subst r. apply turn_stop_ok in E. destruct E as [-> E].
      rewrite (at_end_titles _ _ E). now rewrite app_nil_r.
Qed.

(** X2: when the parser returns, the titles of the categories of the result
    are those of the [Category:] lines of the text, in the order of the
    lines: one category for each such line, none else. *)
Theorem titles_follow_category_lines (text : str) (cats : list category) :
  parse_plain_text text = Ok cats ->
  List.map title cats = category_titles (splitlines text).
Proof.
  unfold parse_plain_text, parse_lines. intros H.
  apply (run_titles (length (splitlines text)) initial 0 (splitlines text))
    in H; [|apply Nat.le_refl].
  exact H.
Qed.

Lemma titles_follow_category_lines_witness :
  parse_plain_text text_two_categories = Ok two_categories
  /\ List.map title two_categories
     = category_titles (splitlines text_two_categories).
Proof.
  assert (H : parse_plain_text text_two_categories = Ok two_categories)
    by reflexivity.
  split; [exact H|]. exact (titles_follow_category_lines _ _ H).
Defined.

End ParserLaws.

(** ** Strings: further facts *)

Module PyStrLaws.

Import PyStrFacts.

Unset Implicit Arguments.

Lemma takewhile_dropwhile (p : char -> bool) (l : str) :
  takewhile p l ++ dropwhile p l = l.
Proof.
  induction l as [|c l IH]; [reflexivity|].
  simpl. destruct (p c); [simpl; now rewrite IH|reflexivity].
Qed.

Lemma dropwhile_twice (p : char -> bool) (l : str) :
  dropwhile p (dropwhile p l) = dropwhile p l.
Proof.
  induction l as [|c l IH]; [reflexivity|].
  simpl. destruct (p c) eqn:E; [assumption|]. simpl. now rewrite E.
Qed.

Lemma rstrip_twice (s : str) : rstrip (rstrip s) = rstrip s.
Proof. unfold rstrip. now rewrite rev_involutive, dropwhile_twice. Qed.

(** [rstrip] keeps a prefix and [lstrip] a suffix. *)
Lemma rstrip_prefix (s : str) : exists w, s = rstrip s ++ w.
Proof.
  exists (rev (takewhile isspace (rev s))). unfold rstrip.
  rewrite <- rev_app_distr, takewhile_dropwhile. now rewrite rev_involutive.
Qed.

Lemma lstrip_suffix (s : str) : exists w, s = w ++ lstrip s.
Proof.
  exists (takewhile isspace s). unfold lstrip.
  now rewrite takewhile_dropwhile.
Qed.

Lemma rstrip_nil : rstrip [] = [].
Proof. reflexivity. Qed.

(** Stripping on the left keeps a string right-stripped. *)
Lemma rstrip_lstrip (r : str) : rstrip r = r -> rstrip (lstrip r) = lstrip r.
Proof.
  unfold lstrip. induction r as [|c r IH]; intros H; [reflexivity|].
  simpl. destruct (isspace c) eqn:E; [|assumption].
  apply IH. rewrite rstrip_cons, E in H.
  destruct (rstrip r) eqn:Er; [discriminate|]. now inversion H.
Qed.

Lemma strip_twice (s : str) : strip (strip s) = strip s.
Proof.
  unfold strip. rewrite rstrip_lstrip by apply rstrip_twice.
  unfold lstrip. apply dropwhile_twice.
Qed.

Lemma strip_rstrip (s : str) : strip (rstrip s) = strip s.
Proof. unfold strip. now rewrite rstrip_twice. Qed.

Lemma rstrip_app (a b : str) : rstrip b <> [] -> rstrip (a ++ b) = a ++ rstrip b.
Proof.
  intros H. induction a as [|c a IH]; [reflexivity|].
  simpl. rewrite rstrip_cons, IH.
  destruct (a ++ rstrip b) eqn:E; [|reflexivity].
  apply app_eq_nil in E. destruct E as [_ E]. contradiction.
Qed.

Lemma not_blank_rstrip (l : str) : is_blank l = false -> rstrip l <> [].
Proof.
  unfold is_blank, strip. intros H E. rewrite E in H. discriminate.
Qed.

Lemma startswith_prefix (p a w : str) :
  startswith p a = true -> startswith p (a ++ w) = true.
Proof.
  revert a. induction p as [|x p IH]; intros a H; [reflexivity|].
  destruct a as [|y a]; [discriminate|]. simpl in *.
  apply andb_prop in H. destruct H as [H1 H2].
  rewrite H1. simpl. now apply IH.
Qed.

Lemma startswith_rstrip (p l : str) :
  startswith p l = false -> startswith p (rstrip l) = false.
Proof.
  intros H. destruct (startswith p (rstrip l)) eqn:E; [|reflexivity].
  destruct (rstrip_prefix l) as [w Hw].
  apply (startswith_prefix p (rstrip l) w) in E. rewrite <- Hw in E.
  congruence.
Qed.

(** *** Strings on one line *)

Lemma forallb_dropwhile (p q : char -> bool) (l : str) :
  forallb p l = true -> forallb p (dropwhile q l) = true.
Proof.
  induction l as [|c l IH]; intros H; [reflexivity|].
  simpl. destruct (q c); [|assumption].
  simpl in H. apply andb_prop in H. now apply IH.
Qed.

Lemma forallb_rev (p : char -> bool) (l : str) :
  forallb p (rev l) = forallb p l.
Proof.
  induction l as [|c l IH]; [reflexivity|].
  simpl. rewrite forallb_app, IH. simpl. rewrite andb_true_r.
  apply andb_comm.
Qed.

Lemma forallb_skipn (p : char -> bool) (n : nat) :
  forall l, forallb p l = true -> forallb p (skipn n l) = true.
Proof.
  induction n as [|n IH]; intros l H; [assumption|].
  destruct l as [|c l]; [reflexivity|].
  simpl in *. apply andb_prop in H. now apply IH.
Qed.

Lemma forallb_rstrip (p : char -> bool) (l : str) :
  forallb p l = true -> forallb p (rstrip l) = true.
Proof.
  intros H. unfold rstrip. rewrite forallb_rev.
  apply forallb_dropwhile. now rewrite forallb_rev.
Qed.

Lemma forallb_strip (p : char -> bool) (l : str) :
  forallb p l = true -> forallb p (strip l) = true.
Proof.
  intros H. unfold strip, lstrip. now apply forallb_dropwhile, forallb_rstrip.
Qed.

(** *** [splitlines] on lines joined by line feeds *)

Lemma splitlines_from_one (l : str) :
  forall cur,
    Forall (fun c => is_linebreak c = false) l ->
    splitlines_from cur false l
    = match cur ++ l with [] => [] | _ => [cur ++ l] end.
Proof.
  induction l as [|c l IH]; intros cur H; simpl.
  - rewrite app_nil_r. reflexivity.
  - inversion H as [|? ? Hc Hl]; subst. rewrite Hc, IH by assumption.
    rewrite <- app_assoc. simpl. destruct (cur ++ c :: l) eqn:E; [|reflexivity].
    apply app_eq_nil in E. destruct E as [_ E]. discriminate.
Qed.

Lemma splitlines_lines_last (L : list str) (l : str) :
  Forall (Forall (fun c => is_linebreak c = false)) L ->
  Forall (fun c => is_linebreak c = false) l ->
  l <> [] ->
  splitlines (concat (List.map (fun x => x ++ [LF]) L) ++ l) = L ++ [l].
Proof.
  unfold splitlines. intros HL Hl Hne.
  induction HL as [|x L Hx _ IH]; simpl.
  - rewrite splitlines_from_one by assumption. simpl.
    destruct l; [now elim Hne|reflexivity].
  - rewrite <- !app_assoc. simpl.
    rewrite splitlines_from_line by assumption. simpl. now rewrite IH.
Qed.

Lemma join_last (L : list str) (l : str) :
  join [LF] (L ++ [l]) = concat (List.map (fun x => x ++ [LF]) L) ++ l.
Proof.
  induction L as [|x L IH]; [reflexivity|].
  change ((x :: L) ++ [l]) with (x :: (L ++ [l])).
  rewrite RenderFacts.join_cons
    by (intros E; apply app_eq_nil in E; destruct E; discriminate).
  rewrite IH. simpl. now rewrite <- !app_assoc.
Qed.

(** *** White space around a string *)

Lemma dropwhile_all (p : char -> bool) (a b : str) :
  forallb p a = true -> dropwhile p (a ++ b) = dropwhile p b.
Proof.
  induction a as [|c a IH]; intros H; [reflexivity|].
  simpl in *. apply andb_prop in H. destruct H as [Hc Ha].
  rewrite Hc. now apply IH.
Qed.

Lemma takewhile_all (p : char -> bool) (l : str) :
  forallb p (takewhile p l) = true.
Proof.
  induction l as [|c l IH]; [reflexivity|].
  simpl. destruct (p c) eqn:E; [simpl; now rewrite E|reflexivity].
Qed.

Lemma lstrip_spaces (ws s : str) :
  forallb isspace ws = true -> lstrip (ws ++ s) = lstrip s.
Proof. apply dropwhile_all. Qed.

Lemma rstrip_spaces (s ws : str) :
  forallb isspace ws = true -> rstrip (s ++ ws) = rstrip s.
Proof.
  intros H. unfold rstrip. rewrite rev_app_distr, dropwhile_all; [reflexivity|].
  now rewrite forallb_rev.
Qed.

Lemma rstrip_no_space (l : str) :
  forallb (fun c => negb (isspace c)) l = true -> rstrip l = l.
Proof.
  induction l as [|c l IH]; intros H; [reflexivity|].
  simpl in H. apply andb_prop in H. destruct H as [Hc Hl].
  apply negb_true_iff in Hc. rewrite rstrip_cons_nonspace by assumption.
  now rewrite IH.
Qed.

(** A string is its stripped part between two runs of white space. *)
Lemma strip_split (s : str) :
  exists ws1 ws2,
    s = ws1 ++ strip s ++ ws2
    /\ forallb isspace ws1 = true /\ forallb isspace ws2 = true.
Proof.
  exists (takewhile isspace (rstrip s)),
    (rev (takewhile isspace (rev s))).
  repeat split.
  - unfold strip, lstrip. rewrite app_assoc, takewhile_dropwhile.
    unfold rstrip. rewrite <- rev_app_distr, takewhile_dropwhile.
    now rewrite rev_involutive.
  - apply takewhile_all.
  - rewrite forallb_rev. apply takewhile_all.
Qed.

Lemma forallb_eq_repeat (c : char) (l : str) :
  forallb (fun x => N.eqb x c) l = true -> l = repeat c (length l).
Proof.
  induction l as [|x l IH]; intros H; [reflexivity|].
  simpl in H. apply andb_prop in H. destruct H as [Hx Hl].
  apply N.eqb_eq in Hx. subst x. simpl. f_equal. now apply IH.
Qed.

Lemma forallb_repeat (p : char -> bool) (c : char) (n : nat) :
  p c = true -> forallb p (repeat c n) = true.
Proof.
  intros H. induction n as [|n IH]; [reflexivity|]. simpl. now rewrite H, IH.
Qed.

(** The stripped part of a run of one character that is no white space,
    with white space around. *)
Lemma strip_padded_run (c : char) (n : nat) (ws1 ws2 : str) :
  isspace c = false ->
  forallb isspace ws1 = true -> forallb isspace ws2 = true ->
  strip (ws1 ++ repeat c (S n) ++ ws2) = repeat c (S n).
Proof.
  intros Hc H1 H2. unfold strip.
  assert (Hr : rstrip (repeat c (S n)) = repeat c (S n)).
  { apply rstrip_no_space, forallb_repeat. now rewrite Hc. }
  rewrite !app_assoc, rstrip_spaces by assumption.
  rewrite rstrip_app by (rewrite Hr; discriminate).
  rewrite Hr, lstrip_spaces by assumption.
  unfold lstrip. simpl. now rewrite Hc.
Qed.

End PyStrLaws.

(** ** The flat-text parser: the form of its result *)

Module StableLaws.

Import ImportQueries RoundTrip ParserFacts PyStrFacts PyStrLaws Laws
       ParserLaws RenderFacts ParseBackFacts Samples.

Unset Implicit Arguments.

#[local] Arguments strip : simpl never.
#[local] Arguments rstrip : simpl never.
#[local] Arguments is_blank : simpl never.
#[local] Arguments startswith : simpl never.
#[local] Arguments is_separator_line : simpl never.

Lemma header_ok_strip (l : str) :
  single_line l = true -> header_ok (strip l) = true.
Proof.
  intros H. unfold header_ok. apply andb_true_intro. split.
  - now apply forallb_strip.
  - apply eqb_eq, strip_twice.
Qed.

Lemma header_ok_field (n : nat) (line : str) :
  single_line line = true -> header_ok (strip (skipn n line)) = true.
Proof. intros H. apply header_ok_strip. now apply forallb_skipn. Qed.

Lemma header_ok_nil : header_ok [] = true.
Proof. reflexivity. Qed.

Lemma text_line_ok_rstrip (l : str) :
  text_line_ok l = true -> text_line_ok (rstrip l) = true.
Proof.
  intros H. apply text_line_ok_parts in H. destruct H as (B & S & C).
  unfold text_line_ok, is_blank, is_separator_line in *.
  rewrite strip_rstrip, startswith_rstrip by assumption.
  now rewrite B, S.
Qed.

Lemma single_line_nobreak_iff (l : str) :
  single_line l = true <-> Forall (fun c => is_linebreak c = false) l.
Proof.
  split; [apply single_line_nobreak|].
  unfold single_line. rewrite forallb_forall, Forall_forall.
  intros H c Hc. now rewrite (H c Hc).
Qed.

(** The text that closing gives to a query. *)
Lemma value_ok_joined (L : list str) :
  forallb (fun l => text_line_ok l && single_line l) L = true ->
  value_ok (rstrip (join [LF] L)) = true.
Proof.
  intros H. unfold value_ok. rewrite rstrip_twice.
  destruct L as [|x L0] using rev_ind; [reflexivity|]. clear IHL0.
  rewrite forallb_app in H. apply andb_prop in H. destruct H as [H0 Hx].
  simpl in Hx. rewrite andb_true_r in Hx.
  apply andb_prop in Hx. destruct Hx as [Hx1 Hx2].
  assert (Hlines : Forall (Forall (fun c => is_linebreak c = false)) L0).
  { rewrite forallb_forall in H0. apply Forall_forall. intros l Hl.
    apply H0 in Hl. apply andb_prop in Hl.
    now apply single_line_nobreak_iff. }
  assert (Hne : rstrip x <> []).
  { apply not_blank_rstrip. now apply text_line_ok_parts in Hx1. }
  rewrite join_last, rstrip_app by assumption.
  rewrite splitlines_lines_last; try assumption.
  - rewrite join_last. apply andb_true_intro. split; [now apply eqb_eq|].
    rewrite forallb_app. apply andb_true_intro. split.
    + rewrite forallb_forall in *. intros l Hl. apply H0 in Hl.
      now apply andb_prop in Hl.
    + simpl. now rewrite text_line_ok_rstrip.
  - apply single_line_nobreak_iff. unfold single_line.
    now apply forallb_rstrip.
Qed.

Lemma finalize_normal (q : open_query) :
  open_ok q = true ->
  query_ok (finalize q) = true
  /\ PyStr.eqb (rstrip (value (finalize q))) (value (finalize q)) = true.
Proof.
  unfold open_ok, query_ok, finalize. intros H.
  apply andb_prop in H. destruct H as [Hn Hl]. cbn [name value]. split.
  - rewrite Hn. simpl. now apply value_ok_joined.
  - apply eqb_eq, rstrip_twice.
Qed.

Lemma append_normal (c : category) (q : open_query) :
  normal c = true -> open_ok q = true ->
  normal (append_query c (finalize q)) = true.
Proof.
  unfold normal, category_ok, stripped_values, append_query.
  intros Hc Hq. destruct (finalize_normal q Hq) as [Q1 Q2].
  apply andb_prop in Hc. destruct Hc as [Hc Hv].
  apply andb_prop in Hc. destruct Hc as [Hh Hqs].
  cbn [title description queries]. rewrite Hh, !forallb_app, Hqs, Hv.
  cbn [forallb]. now rewrite Q1, Q2.
Qed.

Lemma new_category_normal (t d : str) :
  header_ok t = true -> header_ok d = true ->
  normal (mk_category t d []) = true.
Proof.
  intros Ht Hd. unfold normal, category_ok, stripped_values.
  cbn [title description queries]. now rewrite Ht, Hd.
Qed.

Lemma closing_normal (v : vars) :
  vars_normal v ->
  Forall (fun c => normal c = true) (fst (closing v))
  /\ (forall q, snd (closing v) = Some q -> open_ok q = true).
Proof.
  intros (Hs & Hc & Hq). unfold closing.
  destruct (current_category v) as [c|] eqn:Ec.
  - destruct (current_query v) as [q|] eqn:Eq; simpl;
      (split; [|discriminate]); apply Forall_app; split; try assumption;
      constructor; try constructor.
    + apply append_normal; [now apply Hc|now apply Hq].
    + now apply Hc.
  - simpl. split; assumption.
Qed.

(** The shape of the turn of a [Category:] line. *)
Lemma category_branch_shape v i line rest :
  exists desc st i' rest',
    category_branch v i line rest
    = Next (mk_vars (fst (closing v))
                    (Some (mk_category
                             (strip (skipn (length Category_) line)) desc []))
                    (snd (closing v)) st) i' rest'
    /\ (desc = []
        \/ exists l, In l rest
                     /\ desc = strip (skipn (length Description_) l)).
Proof.
  unfold category_branch. fold (closing v).
  destruct (closing v) as [saved cq]. cbn [fst snd].
  destruct (skip_blank_split rest (S i)) as (b1 & R1 & _).
  destruct (skip_blank (S i) rest) as [i1 rest1]. simpl in R1.
  destruct (match rest1 with
            | [] => _ | l :: r => _ end) as [[desc i2] rest2] eqn:Hd.
  assert (D : desc = []
              \/ exists l, In l rest
                           /\ desc = strip (skipn (length Description_) l)).
  { destruct rest1 as [|l r]; [inversion Hd; auto|].
    destruct (startswith Description_ l); inversion Hd; subst; auto.
    right. exists l. split; [|reflexivity].
    apply in_or_app. right. now left. }
  destruct (skip_blank i2 rest2) as [i3 rest3].
  destruct rest3 as [|l r]; [|destruct (is_separator_line l eq_sign)];
    do 4 eexists; (split; [reflexivity|exact D]).
Qed.

Lemma turn_normal v i rest v' i' rest' :
  vars_normal v ->
  Forall (fun l => single_line l = true) rest ->
  turn v i rest = Next v' i' rest' ->
  vars_normal v'.
Proof.
  intros Hv Hrest. destruct rest as [|line rest]; simpl; [discriminate|].
  inversion Hrest as [|? ? Hline Hrest']; subst.
  unfold loop_body. destruct (is_blank line) eqn:Hb.
  { intros H; inversion H; now subst. }
  destruct (startswith Category_ line) eqn:Hc.
  { destruct (category_branch_shape v i line rest)
      as (desc & st & i1 & r1 & -> & D).
    intros H; inversion H; subst.
    destruct (closing_normal v Hv) as [C1 C2].
    split; [exact C1|]. split; [|exact C2].
    intros c Ec. cbn [current_category] in Ec. injection Ec as <-.
    apply new_category_normal;
      [exact (header_ok_field (length Category_) line Hline)|].
    destruct D as [->|(l & Hl & ->)]; [reflexivity|].
    apply header_ok_field. rewrite Forall_forall in Hrest'. now apply Hrest'. }
  destruct Hv as (Hs & Hcat & Hq).
  destruct (pstate_eqb (state v) in_category && startswith Query_Name_ line).
  { unfold query_branch. destruct (skip_blank (S i) rest) as [i1 rest1].
    destruct (current_query v) as [q|] eqn:Eq;
      [destruct (current_category v) as [c|] eqn:Ec|]; try discriminate;
      (destruct rest1 as [|l r]; [discriminate|];
       destruct (is_separator_line l dash); [|discriminate];
       intros H; injection H as <- <- <-; split; [assumption|]; split;
       cbn [current_category current_query]).
    - intros c0 E0. injection E0 as <-. apply append_normal; auto.
    - intros q0 E0. injection E0 as <-.
      change (header_ok (strip (skipn (length Query_Name_) line)) && true
              = true).
      now rewrite (header_ok_field (length Query_Name_) line Hline).
    - assumption.
    - intros q0 E0. injection E0 as <-.
      change (header_ok (strip (skipn (length Query_Name_) line)) && true
              = true).
      now rewrite (header_ok_field (length Query_Name_) line Hline). }
  destruct (pstate_eqb (state v) in_query_value).
  { unfold value_branch. destruct (is_separator_line line eq_sign) eqn:Es.
    - destruct (current_query v) as [q|] eqn:Eq; [|discriminate].
      destruct (current_category v) as [c|] eqn:Ec; [|discriminate].
      intros H; inversion H; subst. split; [assumption|]. split;
        cbn [current_category current_query]; [|discriminate].
      intros c0 E0. injection E0 as <-. apply append_normal; auto.
    - destruct (current_query v) as [q|] eqn:Eq; [|discriminate].
      intros H; inversion H; subst. split; [assumption|]. split;
        cbn [current_category current_query]; [assumption|].
      intros q0 E0. injection E0 as <-.
      specialize (Hq q eq_refl). unfold open_ok in *. cbn [oq_name oq_value].
      apply andb_prop in Hq. destruct Hq as [Hn Hl].
      rewrite Hn, forallb_app, Hl. simpl.
      unfold text_line_ok. now rewrite Hb, Es, Hc, Hline. }
  intros H; inversion H; subst. repeat split; assumption.
Qed.

Lemma at_end_normal v cats :
  vars_normal v -> at_end v = Ok cats -> Forall (fun c => normal c = true) cats.
Proof.
  intros (Hs & Hc & Hq). unfold at_end.
  destruct (current_query v) as [q|] eqn:Eq;
    destruct (current_category v) as [c|] eqn:Ec;
    intros H; inversion H; subst; try assumption;
    apply Forall_app; (split; [assumption|]); constructor; try constructor.
  - apply append_normal; auto.
  - auto.
Qed.

Lemma run_normal (k : nat) :
  forall v i rest cats,
    length rest <= k ->
    vars_normal v ->
    Forall (fun l => single_line l = true) rest ->
    run v i rest = Ok cats ->
    Forall (fun c => normal c = true) cats.
Proof.
  induction k as [|k IH]; intros v i rest cats Hk Hv Hrest H;
    rewrite run_turn in H;
    destruct (turn v i rest) as [v1 i1 rest1|r] eqn:E.
  - apply turn_shrinks in E. lia.
  - subst r. apply turn_stop_ok in E. destruct E as [_ E].
    now apply (at_end_normal v).
  - pose proof E as Hl. apply turn_shrinks in Hl.
    destruct (turn_used _ _ _ _ _ _ E) as (line & extra & R & _ & _).
    apply (IH v1 i1 rest1); try assumption; [lia| |].
    + now apply (turn_normal v i rest v1 i1 rest1).
    + subst rest. inversion Hrest as [|? ? _ Hr]; subst.
      apply Forall_app in Hr. now destruct Hr.
  - subst r. apply turn_stop_ok in E. destruct E as [_ E].
    now apply (at_end_normal v).
Qed.

Lemma vars_normal_initial : vars_normal initial.
Proof. repeat split; [constructor|discriminate|discriminate]. Qed.

Lemma splitlines_single_line (text : str) :
  Forall (fun l => single_line l = true) (splitlines text).
Proof.
  eapply Forall_impl; [|apply splitlines_nobreak].
  intros l Hl. now apply single_line_nobreak_iff.
Qed.

(** X4: every category list that the parser returns is in normal form:
    titles, descriptions and item names are on one line with no white
    space around; item texts are right-stripped, their lines are
    separated by single line feeds, and none of their lines is blank,
    made of [=] only or begun by [Category:]. *)
Theorem parsed_categories_normal (text : str) (cats : list category) :
  parse_plain_text text = Ok cats ->
  Forall (fun c => normal c = true) cats.
Proof.
  unfold parse_plain_text, parse_lines. intros H.
  apply (run_normal (length (splitlines text)) initial 0 (splitlines text));
    [apply Nat.le_refl|apply vars_normal_initial
    |apply splitlines_single_line|exact H].
Qed.

Lemma parsed_categories_normal_witness :
  parse_plain_text text_blank_inside
  = Ok [mk_category (lit "A") []
          [mk_query (lit "q") (lit "SELECT 1" ++ [LF] ++ lit "FROM t")]]
  /\ Forall (fun c => normal c = true)
            [mk_category (lit "A") []
               [mk_query (lit "q") (lit "SELECT 1" ++ [LF] ++ lit "FROM t")]].
Proof.
  assert (H : parse_plain_text text_blank_inside
              = Ok [mk_category (lit "A") []
                      [mk_query (lit "q")
                                (lit "SELECT 1" ++ [LF] ++ lit "FROM t")]])
    by reflexivity.
  split; [exact H|]. exact (parsed_categories_normal _ _ H).
Defined.

Lemma normal_trim (c : category) : normal c = true -> trim_category c = c.
Proof.
  unfold normal, stripped_values, trim_category. intros H.
  apply andb_prop in H. destruct H as [_ H]. destruct c as [t d qs].
  cbn [title description queries] in *. f_equal.
  induction qs as [|q qs IH]; [reflexivity|].
  simpl in H. apply andb_prop in H. destruct H as [Hq Hqs].
  simpl. rewrite IH by assumption. f_equal.
  destruct q as [n v]. unfold trim_query. cbn [name value] in *.
  apply eqb_eq in Hq. now rewrite Hq.
Qed.

(** X5: what the parser returns is stable: rendering the returned category
    list with [format_queries] and parsing the rendering gives the same
    list again. *)
Theorem parsed_categories_stable (text : str) (cats : list category) :
  parse_plain_text text = Ok cats ->
  parse_plain_text (ExportQueries.format_queries (export_data cats)) = Ok cats.
Proof.
  intros H.
  assert (Hn : Forall (fun c => normal c = true) cats).
  { unfold parse_plain_text, parse_lines in H.
    apply (run_normal (length (splitlines text)) initial 0 (splitlines text));
      [apply Nat.le_refl|apply vars_normal_initial
      |apply splitlines_single_line|exact H]. }
  assert (Hok : Forall (fun c => category_ok c = true) cats).
  { eapply Forall_impl; [|exact Hn]. intros c Hc. unfold normal in Hc.
    now apply andb_prop in Hc. }
  unfold parse_plain_text. rewrite splitlines_format_queries by assumption.
  unfold parse_lines.
  change (while_loop (S (length (rendered_lines cats))) initial 0
                     (rendered_lines cats))
    with (run (mk_vars [] None None init) 0 (rendered_lines cats)).
  rewrite (@run_rendered_lines cats [] None init 0 Hok). simpl. f_equal.
  clear H Hok. induction Hn as [|c cs Hc _ IH]; [reflexivity|].
  simpl. now rewrite IH, normal_trim.
Qed.

Lemma parsed_categories_stable_witness :
  parse_plain_text text_blank_inside
  = Ok [mk_category (lit "A") []
          [mk_query (lit "q") (lit "SELECT 1" ++ [LF] ++ lit "FROM t")]]
  /\ parse_plain_text
       (ExportQueries.format_queries
          (export_data
             [mk_category (lit "A") []
                [mk_query (lit "q")
                          (lit "SELECT 1" ++ [LF] ++ lit "FROM t")]]))
     = Ok [mk_category (lit "A") []
             [mk_query (lit "q") (lit "SELECT 1" ++ [LF] ++ lit "FROM t")]].
Proof.
  assert (H : parse_plain_text text_blank_inside
              = Ok [mk_category (lit "A") []
                      [mk_query (lit "q")
                                (lit "SELECT 1" ++ [LF] ++ lit "FROM t")]])
    by reflexivity.
  split; [exact H|]. exact (parsed_categories_stable _ _ H).
Defined.

End StableLaws.

(** ** The renderer: further laws *)

Module RenderLaws.

Import ImportQueries RoundTrip PyStrFacts Laws RenderFacts ParseBackFacts
       Samples.

Unset Implicit Arguments.

Lemma format_query_fill (q : ExportQueries.query) :
  ExportQueries.format_query q
  = ExportQueries.format_query (export_query (fill_query q)).
Proof. reflexivity. Qed.

Lemma format_query_list_fill (qs : list ExportQueries.query) :
  flat_map ExportQueries.format_query qs
  = flat_map ExportQueries.format_query
             (List.map export_query (List.map fill_query qs)).
Proof.
  induction qs as [|q qs IH]; [reflexivity|].
  cbn [List.map flat_map]. now rewrite <- IH.
Qed.

Lemma format_category_fill (c : ExportQueries.category) :
  ExportQueries.format_category c
  = ExportQueries.format_category (export_category (fill_category c)).
Proof.
  unfold ExportQueries.format_category, export_category, fill_category.
  cbn [ExportQueries.title ExportQueries.description ExportQueries.queries
       ExportQueries.get title description queries].
  now rewrite <- format_query_list_fill.
Qed.

(** Rendering reads an absent key as its default. *)
Lemma format_queries_fill (d : ExportQueries.data) :
  ExportQueries.format_queries d
  = ExportQueries.format_queries (export_data (fill_data d)).
Proof.
  unfold ExportQueries.format_queries, export_data, fill_data.
  cbn [ExportQueries.savedQueries ExportQueries.get]. f_equal.
  induction (ExportQueries.get (ExportQueries.savedQueries d) []) as [|c cs IH];
    [reflexivity|].
  cbn [List.map flat_map]. now rewrite <- IH, <- format_category_fill.
Qed.

(** X9: an object with absent keys comes back from the round trip with the
    defaults in their place: [No Category Title], [No Query Name], the
    empty string for a description or a text, the empty list for the
    items, provided the object so filled is one that the round trip
    keeps. *)
Theorem round_trip_fills_defaults (d : ExportQueries.data) :
  Forall (fun c => category_ok c = true) (fill_data d) ->
  parse_plain_text (ExportQueries.format_queries d)
  = Ok (List.map trim_category (fill_data d)).
Proof.
  intros H. rewrite format_queries_fill. unfold parse_plain_text.
  rewrite splitlines_format_queries by assumption.
  exact (@run_rendered_lines (fill_data d) [] None init 0 H).
Qed.

Lemma round_trip_fills_defaults_witness :
  Forall (fun c => category_ok c = true) (fill_data data_absent_keys)
  /\ parse_plain_text (ExportQueries.format_queries data_absent_keys)
     = Ok [ mk_category (lit "No Category Title") []
              [ mk_query (lit "No Query Name") (lit "SELECT 1");
                mk_query (lit "q") [] ];
            mk_category (lit "B") (lit "d") [] ].
Proof.
  assert (H : Forall (fun c => category_ok c = true)
                     (fill_data data_absent_keys))
    by (repeat (constructor; [reflexivity|]); constructor).
  split; [exact H|]. exact (round_trip_fills_defaults _ H).
Defined.

(** *** Rendering part by part *)

Lemma flat_map_format_nonempty (cs : list ExportQueries.category) :
  cs <> [] -> flat_map ExportQueries.format_category cs <> [].
Proof.
  destruct cs as [|c cs]; intros H; [now elim H|].
  cbn [flat_map]. unfold ExportQueries.format_category. discriminate.
Qed.

(** X10: the rendering of a list of categories is the renderings of its
    parts, one line feed between them. *)
Theorem format_queries_app (a b : list ExportQueries.category) :
  a <> [] -> b <> [] ->
  ExportQueries.format_queries (ExportQueries.mk_data (Some (a ++ b)))
  = ExportQueries.format_queries (ExportQueries.mk_data (Some a))
    ++ [LF]
    ++ ExportQueries.format_queries (ExportQueries.mk_data (Some b)).
Proof.
  intros Ha Hb. unfold ExportQueries.format_queries.
  cbn [ExportQueries.savedQueries ExportQueries.get].
  rewrite flat_map_app.
  apply join_app; now apply flat_map_format_nonempty.
Qed.

Lemma format_queries_app_witness :
  [export_category cat_A] <> [] /\ [export_category cat_A] <> []
  /\ ExportQueries.format_queries
       (ExportQueries.mk_data
          (Some ([export_category cat_A] ++ [export_category cat_A])))
     = ExportQueries.format_queries
         (ExportQueries.mk_data (Some [export_category cat_A]))
       ++ [LF]
       ++ ExportQueries.format_queries
            (ExportQueries.mk_data (Some [export_category cat_A])).
Proof.
  assert (H : [export_category cat_A] <> []) by discriminate.
  split; [exact H|]. split; [exact H|].
  exact (format_queries_app _ _ H H).
Defined.

End RenderLaws.

(** ** The block locator: further laws *)

Module LocatorLaws.

Import Re Json ImportQueries PyStrFacts PyStrLaws ReFacts Laws ImportSpec
       Samples.

Unset Implicit Arguments.

(** *** Reading the spans of the two patterns *)

Lemma matches_chr (t : str) (p : char -> bool) (i j : nat) :
  matches t (Chr p) i j ->
  j = S i /\ exists c, nth_error t i = Some c /\ p c = true.
Proof. intros H. inversion H; subst. eauto. Qed.

Lemma matches_seq (t : str) (r1 r2 : regex) (i k : nat) :
  matches t (Seq r1 r2) i k ->
  exists j, matches t r1 i j /\ matches t r2 j k.
Proof. intros H. inversion H; subst. eauto. Qed.

Lemma matches_eps (t : str) (i j : nat) : matches t Eps i j -> j = i.
Proof. intros H. now inversion H. Qed.

Lemma matches_star_class (t : str) (p : char -> bool) (i j : nat) :
  matches t (Star (Chr p)) i j ->
  i <= j
  /\ forall q, i <= q < j -> exists c, nth_error t q = Some c /\ p c = true.
Proof.
  intros H. remember (Star (Chr p)) as r eqn:Er.
  induction H as [| | | |r i|r i j k H1 _ Hlt H2 IH]; try discriminate.
  - split; [lia|]. intros q Hq. lia.
  - inversion Er; subst r. apply matches_chr in H1. destruct H1 as [-> H1].
    destruct (IH eq_refl) as [Hle Hq]. split; [lia|].
    intros q Hq'. destruct (Nat.eq_dec q i) as [->|Hne]; [assumption|].
    apply Hq. lia.
Qed.

Lemma matches_lit (t : str) (s : str) :
  forall i j,
    matches t (Lit s) i j ->
    j = i + length s /\ startswith s (skipn i t) = true.
Proof.
  induction s as [|c s IH]; intros i j H.
  - apply matches_eps in H. subst. split; [simpl; lia|reflexivity].
  - change (Lit (c :: s)) with (Seq (Chr (N.eqb c)) (Lit s)) in H.
    apply matches_seq in H. destruct H as (k & H1 & H2).
    apply matches_chr in H1. destruct H1 as (-> & x & Hx & Hc).
    apply IH in H2. destruct H2 as [-> H2]. split; [simpl; lia|].
    rewrite (skipn_nth_error_cons t i Hx). cbn [startswith].
    now rewrite Hc, H2.
Qed.

(** A line of the block: a space or a tab, then no line feed up to the
    line feed that ends it. *)
Lemma block_line (t : str) (a b : nat) :
  matches t (Cat [Plus (Chr sp_tab); Star (Chr dot); Chr (N.eqb LF)]) a b ->
  a + 2 <= b
  /\ (exists c, nth_error t a = Some c /\ sp_tab c = true)
  /\ nth_error t (b - 1) = Some LF
  /\ forall q, a <= q -> q + 1 < b ->
               exists c, nth_error t q = Some c /\ c <> LF.
Proof.
  intros H.
  change (Cat [Plus (Chr sp_tab); Star (Chr dot); Chr (N.eqb LF)])
    with (Seq (Seq (Chr sp_tab) (Star (Chr sp_tab)))
              (Seq (Star (Chr dot)) (Seq (Chr (N.eqb LF)) Eps))) in H.
  apply matches_seq in H. destruct H as (j1 & H1 & H).
  apply matches_seq in H1. destruct H1 as (j0 & H0 & H1).
  apply matches_chr in H0. destruct H0 as (-> & c0 & Hc0 & Hs0).
  apply matches_star_class in H1. destruct H1 as [L1 Q1].
  apply matches_seq in H. destruct H as (j2 & H2 & H).
  apply matches_star_class in H2. destruct H2 as [L2 Q2].
  apply matches_seq in H. destruct H as (j3 & H3 & H).
  apply matches_chr in H3. destruct H3 as (-> & c3 & Hc3 & Hs3).
  apply matches_eps in H. subst b. apply N.eqb_eq in Hs3. subst c3.
  repeat split.
  - lia.
  - eauto.
  - replace (S j2 - 1) with j2 by lia. assumption.
  - intros q Hq1 Hq2.
    destruct (Nat.eq_dec q a) as [->|Hne].
    + exists c0. split; [assumption|]. intros ->. discriminate.
    + destruct (Nat.lt_ge_cases q j1) as [Hlt|Hge].
      * destruct (Q1 q) as (c & Hc & Hs); [lia|].
        exists c. split; [assumption|]. intros ->. discriminate.
      * destruct (Q2 q) as (c & Hc & Hs); [lia|].
        exists c. split; [assumption|]. intros ->. discriminate.
Qed.

Lemma block_lines (t : str) (a e : nat) :
  matches t (Star (Cat [Plus (Chr sp_tab); Star (Chr dot); Chr (N.eqb LF)]))
          a e ->
  (forall p, a <= p < e -> p = a \/ nth_error t (p - 1) = Some LF ->
             exists c, nth_error t p = Some c /\ sp_tab c = true)
  /\ (a = e \/ (a < e /\ nth_error t (e - 1) = Some LF)).
Proof.
  intros H.
  remember (Star (Cat [Plus (Chr sp_tab); Star (Chr dot); Chr (N.eqb LF)]))
    as r eqn:Er.
  induction H as [| | | |r i|r i j k H1 _ Hlt H2 IH]; try discriminate.
  - split; [intros p Hp; lia|now left].
  - inversion Er; subst r. apply block_line in H1.
    destruct H1 as (B1 & (c0 & Hc0 & Hs0) & B3 & B4).
    destruct (IH eq_refl) as [IH1 IH2]. split.
    + intros p Hp Hstart.
      destruct (Nat.lt_ge_cases p j) as [Hlt'|Hge].
      * destruct Hstart as [->|Hprev]; [eauto|].
        destruct (Nat.eq_dec p i) as [->|Hne]; [eauto|].
        destruct (B4 (p - 1)) as (c & Hc & Hn); [lia|lia|].
        rewrite Hprev in Hc. inversion Hc. now elim Hn.
      * apply IH1; [lia|].
        destruct (Nat.eq_dec p j) as [->|Hne]; [now left|].
        destruct Hstart as [->|Hprev]; [lia|now right].
    + right. destruct IH2 as [<-|[Hlt' He]]; split; try lia; assumption.
Qed.

(** The span of a match of the two patterns. *)
Lemma located_span (t : str) (i s e : nat) :
  search2 key_line indented_block t = Some (i, s, e) ->
  i < s /\ s < e /\ e <= length t
  /\ at_bol t i = true
  /\ nth_error t (s - 1) = Some LF
  /\ nth_error t (e - 1) = Some LF
  /\ (forall p, s <= p < e -> p = s \/ nth_error t (p - 1) = Some LF ->
                exists c, nth_error t p = Some c /\ sp_tab c = true)
  /\ (exists j, i <= j /\ j <= length t
                /\ startswith label (skipn j t) = true).
Proof.
  intros H. apply search2_sound in H.
  destruct H as (Hk & Hb & [Hle1 Hle2] & Hlen).
  change indented_block
    with (Seq (Cat [Plus (Chr sp_tab); Star (Chr dot); Chr (N.eqb LF)])
              (Star (Cat [Plus (Chr sp_tab); Star (Chr dot);
                          Chr (N.eqb LF)]))) in Hb.
  apply matches_seq in Hb. destruct Hb as (m & Hb1 & Hb2).
  pose proof (block_line _ _ _ Hb1) as (B1 & (c0 & Hc0 & Hs0) & B3 & B4).
  pose proof (block_lines _ _ _ Hb2) as [L1 L2].
  destruct (matches_bounds Hb2) as [Hme _].
  change key_line
    with (Seq Bol (Seq (Star (Chr sp_tab)) (Seq (Lit label)
           (Seq (Star (Chr isspace)) (Seq (Chr (N.eqb pipe))
             (Seq (Star (Chr isspace)) (Seq (Chr (N.eqb LF)) Eps)))))))
    in Hk.
  apply matches_seq in Hk. destruct Hk as (k0 & K0 & Hk).
  inversion K0; subst.
  apply matches_seq in Hk. destruct Hk as (k1 & K1 & Hk).
  apply matches_star_class in K1. destruct K1 as [K1 _].
  apply matches_seq in Hk. destruct Hk as (k2 & K2 & Hk).
  apply matches_lit in K2. destruct K2 as [-> K2].
  apply matches_seq in Hk. destruct Hk as (k3 & K3 & Hk).
  apply matches_star_class in K3. destruct K3 as [K3 _].
  apply matches_seq in Hk. destruct Hk as (k4 & K4 & Hk).
  apply matches_chr in K4. destruct K4 as (-> & _).
  apply matches_seq in Hk. destruct Hk as (k5 & K5 & Hk).
  apply matches_star_class in K5. destruct K5 as [K5 _].
  apply matches_seq in Hk. destruct Hk as (k6 & K6 & Hk).
  apply matches_chr in K6. destruct K6 as (-> & c6 & Hc6 & Hs6).
  apply matches_eps in Hk. subst s. apply N.eqb_eq in Hs6. subst c6.
  repeat split; try lia; try assumption.
  - replace (S k5 - 1) with k5 by lia. assumption.
  - destruct L2 as [<-|[_ L2]]; assumption.
  - intros p Hp Hstart.
    destruct (Nat.lt_ge_cases p m) as [Hlt|Hge].
    + destruct Hstart as [->|Hprev]; [eauto|].
      destruct (Nat.eq_dec p (S k5)) as [->|Hne]; [eauto|].
      destruct (B4 (p - 1)) as (c & Hc & Hn); [lia|lia|].
      rewrite Hprev in Hc. inversion Hc. now elim Hn.
    + apply L1; [lia|].
      destruct (Nat.eq_dec p m) as [->|Hne]; [now left|].
      destruct Hstart as [->|Hprev]; [lia|now right].
  - exists k1. repeat split; [assumption|lia|assumption].
Qed.

(** *** The first line and the indentation *)

Lemma takewhile_app_stop (p : char -> bool) (a b : str) (c : char) :
  p c = false -> takewhile p (a ++ c :: b) = takewhile p a.
Proof.
  intros H. induction a as [|x a IH]; simpl.
  - now rewrite H.
  - destruct (p x); [now rewrite IH|reflexivity].
Qed.

Lemma first_line_takewhile (p : char -> bool) (s : str) :
  (forall c, p c = true -> is_linebreak c = false) ->
  forall cur first others,
    splitlines_from cur false s = first :: others ->
    takewhile p (cur ++ s) = takewhile p first.
Proof.
  intros Hp. induction s as [|c s IH]; intros cur first others H; simpl in H.
  - rewrite app_nil_r. destruct cur; [discriminate|]. now inversion H.
  - destruct (is_linebreak c) eqn:E.
    + inversion H; subst. apply takewhile_app_stop.
      destruct (p c) eqn:Ec; [|reflexivity]. apply Hp in Ec. congruence.
    + apply IH in H. rewrite <- H, <- app_assoc. reflexivity.
Qed.

Lemma startswith_takewhile (p : char -> bool) (l : str) :
  startswith (takewhile p l) l = true.
Proof.
  induction l as [|c l IH]; [reflexivity|].
  simpl. destruct (p c); [|reflexivity]. simpl. now rewrite N.eqb_refl, IH.
Qed.

Lemma slice_cons (t : str) (s e : nat) (c : char) :
  s < e -> nth_error t s = Some c ->
  slice t s e = c :: slice t (S s) e.
Proof.
  intros H Hc. unfold slice. rewrite (skipn_nth_error_cons t s Hc).
  replace (e - s) with (S (e - S s)) by lia. reflexivity.
Qed.

(** What the locator of the import script returns when a match is
    found. *)
Lemma extract_block_found (yaml : str) (i s e : nat) :
  search2 key_line indented_block yaml = Some (i, s, e) ->
  exists first others,
    splitlines (slice yaml s e) = first :: others
    /\ extract_console_configuration_json_block yaml
       = Ok (s, e, takewhile sp_tab (slice yaml s e),
             join [LF] (List.map (remove_indent
                                    (takewhile sp_tab (slice yaml s e)))
                                 (first :: others))).
Proof.
  intros H. pose proof (located_span _ _ _ _ H)
    as (_ & Hse & _ & _ & _ & _ & Hl & _).
  destruct (Hl s) as (c & Hc & Hs); [lia|now left|].
  unfold extract_console_configuration_json_block. rewrite H.
  destruct (splitlines (slice yaml s e)) as [|first others] eqn:E.
  - exfalso. rewrite (slice_cons yaml s e c Hse Hc) in E.
    apply splitlines_nonempty in E; [assumption|discriminate].
  - exists first, others. split; [reflexivity|].
    rewrite leading_indent_takewhile.
    rewrite <- (first_line_takewhile sp_tab (slice yaml s e) sp_tab_nobreak
                  [] first others E).
    reflexivity.
Qed.

(** X11: the locator returns a span or fails with [BlockNotFound]: the
    subscript [splitlines()[0]] is never out of range, since the block
    of a match has a line.  The span it returns is made of whole lines
    of the document, each begun by a space or a tab, so that no empty
    line is inside; and the indentation it returns is not empty and
    starts the block. *)
Theorem located_block_shape (yaml : str) :
  extract_console_configuration_json_block yaml = Fail BlockNotFound
  \/ exists s e indent json_text,
      extract_console_configuration_json_block yaml
      = Ok (s, e, indent, json_text)
      /\ 0 < s /\ s < e /\ e <= length yaml
      /\ nth_error yaml (s - 1) = Some LF
      /\ nth_error yaml (e - 1) = Some LF
      /\ (forall p, s <= p < e ->
                    p = s \/ nth_error yaml (p - 1) = Some LF ->
                    exists c, nth_error yaml p = Some c /\ sp_tab c = true)
      /\ indent <> []
      /\ startswith indent (slice yaml s e) = true.
Proof.
  destruct (search2 key_line indented_block yaml) as [[[i s] e]|] eqn:H.
  - right.
    pose proof (located_span _ _ _ _ H)
      as (His & Hse & Hlen & _ & Hs1 & He1 & Hl & _).
    destruct (extract_block_found _ _ _ _ H) as (first & others & _ & Hx).
    exists s, e, (takewhile sp_tab (slice yaml s e)),
      (join [LF] (List.map (remove_indent (takewhile sp_tab (slice yaml s e)))
                           (first :: others))).
    split; [exact Hx|]. repeat split; try assumption; try lia.
    + destruct (Hl s) as (c & Hc & Hs); [lia|now left|].
      rewrite (slice_cons yaml s e c Hse Hc). simpl. rewrite Hs. discriminate.
    + apply startswith_takewhile.
  - left. unfold extract_console_configuration_json_block. now rewrite H.
Qed.

(** X12: the two scripts locate the same block and strip the same
    indentation: the JSON text of the export script is the one of the
    import script, and they fail together. *)
Theorem locators_agree (yaml : str) :
  ExportQueries.extract_console_configuration_json yaml
  = json_text_of (extract_console_configuration_json_block yaml).
Proof.
  unfold ExportQueries.extract_console_configuration_json,
    ExportQueries.key_line, ExportQueries.indented_block.
  destruct (search2 key_line indented_block yaml) as [[[i s] e]|] eqn:H.
  - destruct (extract_block_found _ _ _ _ H) as (first & others & E & ->).
    simpl. rewrite leading_indent_takewhile, E. reflexivity.
  - unfold extract_console_configuration_json_block. now rewrite H.
Qed.

(** *** A document without the label *)

Lemma occurs_at (p t : str) (j : nat) :
  j <= length t -> startswith p (skipn j t) = true -> occurs p t = true.
Proof.
  intros Hj H. unfold occurs. apply existsb_exists. exists j.
  split; [|assumption]. apply in_seq. lia.
Qed.

(** X13: when [console-configuration.json:] occurs nowhere in the document,
    both locators fail with [BlockNotFound]. *)
Theorem block_not_found_without_label (yaml : str) :
  occurs label yaml = false ->
  extract_console_configuration_json_block yaml = Fail BlockNotFound
  /\ ExportQueries.extract_console_configuration_json yaml
     = Fail BlockNotFound.
Proof.
  intros H.
  assert (E : search2 key_line indented_block yaml = None).
  { destruct (search2 key_line indented_block yaml) as [[[i s] e]|] eqn:E;
      [|reflexivity].
    apply located_span in E.
    destruct E as (_ & _ & _ & _ & _ & _ & _ & (j & _ & Hj & Hs)).
    rewrite (occurs_at label yaml j Hj Hs) in H. discriminate. }
  unfold extract_console_configuration_json_block,
    ExportQueries.extract_console_configuration_json,
    ExportQueries.key_line, ExportQueries.indented_block.
  rewrite E. split; reflexivity.
Qed.

Lemma block_not_found_without_label_witness :
  occurs label doc_no_block = false
  /\ extract_console_configuration_json_block doc_no_block = Fail BlockNotFound
  /\ ExportQueries.extract_console_configuration_json doc_no_block
     = Fail BlockNotFound.
Proof.
  assert (H : occurs label doc_no_block = false) by reflexivity.
  split; [exact H|]. exact (block_not_found_without_label _ H).
Defined.

(** *** Stripping and putting back the indentation *)

Lemma remove_indent_app (indent line : str) :
  remove_indent indent (indent ++ line) = line.
Proof.
  unfold remove_indent. now rewrite startswith_app, skipn_length_app.
Qed.

(** X14: the lines of a block written by [main], with the indentation
    removed as the locators remove it, are the lines of the serialized
    text. *)
Theorem remove_indent_reindent (indent text : str) :
  Forall (fun c => sp_tab c = true) indent ->
  text <> [] ->
  List.map (remove_indent indent) (splitlines (reindent indent text))
  = splitlines text.
Proof.
  intros Hi Ht. rewrite (@reindent_lines indent text Hi Ht).
  rewrite map_map. rewrite <- (map_id (splitlines text)) at 2.
  apply map_ext. intros l. apply remove_indent_app.
Qed.

Lemma remove_indent_reindent_witness :
  Forall (fun c => sp_tab c = true) (lit "    ")
  /\ List.map (remove_indent (lit "    "))
              (splitlines
                 (reindent (lit "    ")
                    (sample_dumps
                       (JObj (updated_config config_read_only
                                             two_categories)))))
     = splitlines
         (sample_dumps (JObj (updated_config config_read_only two_categories))).
Proof.
  assert (H : Forall (fun c => sp_tab c = true) (lit "    "))
    by (repeat (constructor; [reflexivity|]); constructor).
  split; [exact H|].
  apply (remove_indent_reindent _ _ H). vm_compute. discriminate.
Defined.

End LocatorLaws.

(** ** The flat-text parser: separators and names *)

Module SeparatorLaws.

Import ImportQueries ParserFacts PyStrFacts PyStrLaws Laws ParserLaws Samples.

Unset Implicit Arguments.

(** X8: for a character that is no white space, the separator lines are
    the non-empty runs of the character with white space, if any, before
    and after: the length of the run does not matter. *)
Theorem separator_lines (line : str) (c : char) :
  isspace c = false ->
  (is_separator_line line c = true
   <-> exists ws1 n ws2,
        line = ws1 ++ repeat c (S n) ++ ws2
        /\ forallb isspace ws1 = true /\ forallb isspace ws2 = true).
Proof.
  intros Hc. split.
  - unfold is_separator_line. intros H.
    destruct (strip_split line) as (ws1 & ws2 & Hl & H1 & H2).
    destruct (strip line) as [|x xs] eqn:E; [discriminate|].
    apply forallb_eq_repeat in H.
    exists ws1, (length xs), ws2. split; [|split; assumption].
    rewrite Hl at 1. now rewrite H.
  - intros (ws1 & n & ws2 & -> & H1 & H2).
    unfold is_separator_line.
    rewrite (strip_padded_run c n ws1 ws2 Hc H1 H2).
    cbn [repeat]. apply (forallb_repeat (fun x => N.eqb x c) c (S n)).
    apply N.eqb_refl.
Qed.

Lemma separator_lines_witness :
  isspace eq_sign = false
  /\ (is_separator_line (lit "  ===  ") eq_sign = true
      <-> exists ws1 n ws2,
           lit "  ===  " = ws1 ++ repeat eq_sign (S n) ++ ws2
           /\ forallb isspace ws1 = true /\ forallb isspace ws2 = true).
Proof.
  assert (H : isspace eq_sign = false) by reflexivity.
  split; [exact H|]. exact (separator_lines (lit "  ===  ") eq_sign H).
Defined.

End SeparatorLaws.

(** ** The flat-text parser: where the names of the items come from *)

Module NameLaws.

Import ImportQueries RoundTrip ParserFacts PyStrFacts Laws ParserLaws
       StableLaws Samples.

Unset Implicit Arguments.

Lemma names_of_app (a b : list category) :
  names_of (a ++ b) = names_of a ++ names_of b.
Proof. unfold names_of. apply flat_map_app. Qed.

Lemma names_of_append (c : category) (q : open_query) :
  names_of [append_query c (finalize q)] = names_of [c] ++ [oq_name q].
Proof.
  unfold names_of. cbn [flat_map append_query queries finalize].
  rewrite !app_nil_r, map_app. reflexivity.
Qed.

(** A turn adds at most the name of the line it reads. *)
Lemma turn_names v i line rest v' i' rest' :
  turn v i (line :: rest) = Next v' i' rest' ->
  exists added,
    names_held v' = names_held v ++ added
    /\ incl added (query_names [line]).
Proof.
  simpl. unfold loop_body.
  assert (Same : names_held v' = names_held v ->
                 exists added, names_held v' = names_held v ++ added
                               /\ incl added (query_names [line])).
  { intros E. exists []. rewrite app_nil_r. split; [assumption|].
    intros x Hx. destruct Hx. }
  destruct (is_blank line). { intros H; injection H as <- <- <-. now apply Same. }
  destruct (startswith Category_ line).
  { destruct (category_branch_shape v i line rest)
      as (desc & st & i1 & r1 & -> & _).
    intros H; injection H as <- <- <-. apply Same.
    unfold names_held at 1, held. cbn [saved_queries current_category
                                        current_query closed].
    rewrite names_of_app. unfold names_of at 2. cbn [flat_map queries List.map].
    rewrite !app_nil_r. unfold closing, names_held, held.
    destruct (current_category v) as [c|];
      [destruct (current_query v) as [q|]|]; cbn [fst snd closed open_name].
    - rewrite !names_of_app, names_of_append. now rewrite <- !app_assoc.
    - now rewrite app_nil_r.
    - now rewrite app_nil_r. }
  destruct (pstate_eqb (state v) in_category && startswith Query_Name_ line)
    eqn:Hb.
  { apply andb_prop in Hb. destruct Hb as [_ Hq].
    unfold query_branch. destruct (skip_blank (S i) rest) as [i1 rest1].
    assert (New : incl [strip (skipn (length Query_Name_) line)]
                       (query_names [line])).
    { unfold query_names. cbn [filter]. rewrite Hq. apply incl_refl. }
    destruct (current_query v) as [q|] eqn:Eq;
      [destruct (current_category v) as [c|] eqn:Ec|]; try discriminate;
      (destruct rest1 as [|l r]; [discriminate|];
       destruct (is_separator_line l dash); [|discriminate];
       intros H; injection H as <- <- <-;
       exists [strip (skipn (length Query_Name_) line)];
       split; [|exact New]; unfold names_held, held;
       cbn [saved_queries current_category current_query closed open_name
            oq_name]; rewrite ?Eq, ?Ec; cbn [closed open_name]).
    - rewrite !names_of_app, names_of_append. now rewrite <- !app_assoc.
    - now rewrite app_nil_r. }
  destruct (pstate_eqb (state v) in_query_value); [|intros H;
    injection H as <- <- <-; now apply Same].
  unfold value_branch.
  destruct (is_separator_line line eq_sign);
    (destruct (current_query v) as [q|] eqn:Eq; [|discriminate]);
    try (destruct (current_category v) as [c|] eqn:Ec; [|discriminate]);
    intros H; injection H as <- <- <-; apply Same; unfold names_held, held;
    cbn [saved_queries current_category current_query closed open_name
         oq_name]; rewrite ?Eq, ?Ec; cbn [closed open_name].
  - rewrite !names_of_app, names_of_append. now rewrite <- !app_assoc.
  - reflexivity.
Qed.

Lemma at_end_names v cats :
  at_end v = Ok cats -> names_of cats = names_held v.
Proof.
  unfold at_end, names_held, held.
  destruct (current_query v) as [q|]; destruct (current_category v) as [c|];
    intros H; inversion H; subst; cbn [closed open_name];
    rewrite ?app_nil_r; try reflexivity.
  rewrite !names_of_app, names_of_append. now rewrite <- !app_assoc.
Qed.

Lemma query_names_app (a b : list str) :
  query_names (a ++ b) = query_names a ++ query_names b.
Proof. unfold query_names. now rewrite filter_app, map_app. Qed.

Lemma run_names (k : nat) :
  forall v i rest cats,
    length rest <= k ->
    run v i rest = Ok cats ->
    incl (names_of cats) (names_held v ++ query_names rest).
Proof.
  induction k as [|k IH]; intros v i rest cats Hk H; rewrite run_turn in H;
    destruct (turn v i rest) as [v1 i1 rest1|r] eqn:E.
  - apply turn_shrinks in E. lia.
  - subst r. apply turn_stop_ok in E. destruct E as [-> E].
    rewrite (at_end_names _ _ E). apply incl_appl, incl_refl.
  - pose proof E as Hl. apply turn_shrinks in Hl.
    destruct (turn_used _ _ _ _ _ _ E) as (line & extra & R & _ & _).
    subst rest. apply turn_names in E. destruct E as (added & E & Ha).
    apply IH in H; [|simpl in Hl, Hk; lia].
    change (line :: extra ++ rest1) with ([line] ++ extra ++ rest1).
    rewrite !query_names_app. rewrite E in H.
    intros x Hx. apply H in Hx. rewrite !in_app_iff in *.
    destruct Hx as [[Hx|Hx]|Hx]; auto.
  - subst r. apply turn_stop_ok in E. destruct E as [-> E].
    rewrite (at_end_names _ _ E). apply incl_appl, incl_refl.
Qed.

(** X3: the parser invents no item: the name of every item of the result is
    the name that some [Query Name:] line of the text announces. *)
Theorem names_come_from_lines (text : str) (cats : list category) :
  parse_plain_text text = Ok cats ->
  incl (names_of cats) (query_names (splitlines text)).
Proof.
  unfold parse_plain_text, parse_lines. intros H.
  apply (run_names (length (splitlines text)) initial 0 (splitlines text))
    in H; [|apply Nat.le_refl].
  exact H.
Qed.

Lemma names_come_from_lines_witness :
  parse_plain_text text_query_in_value
  = Ok [mk_category (lit "A") []
          [mk_query (lit "q")
                    (lit "Query Name: r" ++ [LF] ++ lit "SELECT 1")]]
  /\ incl (names_of
             [mk_category (lit "A") []
                [mk_query (lit "q")
                          (lit "Query Name: r" ++ [LF] ++ lit "SELECT 1")]])
          (query_names (splitlines text_query_in_value)).
Proof.
  assert (H : parse_plain_text text_query_in_value
              = Ok [mk_category (lit "A") []
                      [mk_query (lit "q")
                         (lit "Query Name: r" ++ [LF] ++ lit "SELECT 1")]])
    by reflexivity.
  split; [exact H|]. exact (names_come_from_lines _ _ H).
Defined.

End NameLaws.

(** ** The two scripts together *)

Module PipelineLaws.

Import Json ImportQueries RoundTrip RenderFacts ParseBackFacts ImportSpec
       Samples.

Unset Implicit Arguments.

(** X15: export, then import with the flat text untouched: for a category
    list that the round trip keeps, importing its rendering writes that
    list, item texts right-stripped, under [savedQueries] of the object
    of the document, whatever the list the document held. *)
Theorem import_of_rendering
        (json_loads : str -> option json) (json_dumps : json -> str)
        (cats : list category) (yaml : str)
        (s e : nat) (indent jt : str) (d : dict) :
  Forall (fun c => category_ok c = true) cats ->
  extract_console_configuration_json_block yaml = Ok (s, e, indent, jt) ->
  json_loads jt = Some (JObj d) ->
  main json_loads json_dumps
       (ExportQueries.format_queries (export_data cats)) yaml
  = Ok (splice yaml s e
          (reindent indent
             (json_dumps
                (JObj (updated_config d (List.map trim_category cats)))))).
Proof.
  intros Hc He Hl. eapply main_ok; try eassumption.
  unfold parse_plain_text. rewrite splitlines_format_queries by assumption.
  exact (@run_rendered_lines cats [] None init 0 Hc).
Qed.

Lemma import_of_rendering_witness :
  Forall (fun c => category_ok c = true) two_categories
  /\ main sample_loads sample_dumps
          (ExportQueries.format_queries (export_data two_categories))
          doc_read_only
     = Ok (splice doc_read_only 54 115
             (reindent (lit "    ")
                (sample_dumps
                   (JObj (updated_config config_read_only
                            (List.map trim_category two_categories)))))).
Proof.
  assert (H : Forall (fun c => category_ok c = true) two_categories)
    by (repeat (constructor; [reflexivity|]); constructor).
  split; [exact H|].
  apply (import_of_rendering sample_loads sample_dumps two_categories
           doc_read_only 54 115 (lit "    ")
           (dq (lit "{
  'readOnly': true,
  'savedQueries': []
}")) config_read_only H); reflexivity.
Defined.

End PipelineLaws.

(** ** The flat-text parser: line endings *)

Module LineEndingLaws.

Import ImportQueries PyStrFacts PyStrLaws RenderFacts Samples.

Unset Implicit Arguments.

Lemma splitlines_from_crlf (l : str) :
  forall cur rest,
    Forall (fun c => is_linebreak c = false) l ->
    splitlines_from cur false (l ++ CR :: LF :: rest)
    = (cur ++ l) :: splitlines_from [] false rest.
Proof.
  induction l as [|c l IH]; intros cur rest H; simpl.
  - now rewrite app_nil_r.
  - inversion H as [|? ? Hc Hl]; subst. rewrite Hc, IH by assumption.
    now rewrite <- app_assoc.
Qed.

Lemma splitlines_join_crlf (L : list str) :
  Forall (Forall (fun c => is_linebreak c = false)) L ->
  splitlines (join [CR; LF] L) = splitlines (join [LF] L).
Proof.
  unfold splitlines. induction 1 as [|l L Hl HL IH]; [reflexivity|].
  destruct L as [|l' L]; [reflexivity|].
  change (join [CR; LF] (l :: l' :: L))
    with (l ++ CR :: LF :: join [CR; LF] (l' :: L)).
  change (join [LF] (l :: l' :: L))
    with (l ++ LF :: join [LF] (l' :: L)).
  rewrite splitlines_from_crlf by assumption.
  rewrite splitlines_from_line by assumption.
  now rewrite IH.
Qed.

(** X16: the parser does not see how the lines of the flat text end: lines
    joined by a carriage return and a line feed are parsed as the same
    lines joined by a line feed. *)
Theorem crlf_text_parsed_alike (L : list str) :
  Forall (Forall (fun c => is_linebreak c = false)) L ->
  parse_plain_text (join [CR; LF] L) = parse_plain_text (join [LF] L).
Proof.
  intros H. unfold parse_plain_text. now rewrite splitlines_join_crlf.
Qed.

Lemma crlf_text_parsed_alike_witness :
  Forall (Forall (fun c => is_linebreak c = false))
         (splitlines text_two_categories)
  /\ parse_plain_text (join [CR; LF] (splitlines text_two_categories))
     = parse_plain_text (join [LF] (splitlines text_two_categories)).
Proof.
  assert (H : Forall (Forall (fun c => is_linebreak c = false))
                     (splitlines text_two_categories))
    by apply splitlines_nobreak.
  split; [exact H|]. exact (crlf_text_parsed_alike _ H).
Defined.

End LineEndingLaws.
